(** * gorm-filter: the rule model and the rule-to-predicate translation

    A shallow embedding of [filter/rule.go] (package [filter]) and the
    properties of its three entry points [Filter], [Search] and
    [MultiSearch].

    Conventions of the embedding.
    - A Go [string] is a sequence of bytes: Rocq's [string].
    - A [panic] is an explicit outcome: every function that can panic
      returns a [result].
    - A [reflect.Value] is the zero Value, a value that [Interface] can
      return, or a value read from an unexported struct field, which
      [Interface] refuses.
    - [map[string]reflect.Value] is a [gmap string Value].
    - The query executor ([*gorm.DB]) is external to the package: it is a
      type [DB] with one operation [Where], both variables of a section. *)

From Stdlib Require Import ZArith Ascii.
From stdpp Require Import gmap strings list fin_maps.

Local Open Scope Z_scope.

(** ** Outcomes *)

Inductive GoKind := Invalid | Bool | Int | String_ | Slice | Ptr | Struct.

(** A struct field as [reflect] shows it: whether its name is exported,
    the two tag lookups the package performs, [Tag.Get("json")] and
    [Tag.Get("filter")] (the empty string when the key is absent), and the
    field's current value. *)
Record StructField (V : Type) := mkStructField {
  Exported : bool;
  Tag_json : string;
  Tag_filter : string;
  FieldValue : V
}.
Arguments mkStructField {V} _ _ _ _.
Arguments Exported {V} _.
Arguments Tag_json {V} _.
Arguments Tag_filter {V} _.
Arguments FieldValue {V} _.

(** An exported field. *)
Definition mkField {V} (json filter : string) (v : V) : StructField V :=
  mkStructField true json filter v.

(** Go values of the types the package meets.  A slice is [None] when it
    is [nil] and [Some l] otherwise, so [[]string{}] is [VStrings (Some [])]. *)
#[warnings="-register-all"]
Inductive GoValue :=
| VBool (b : bool)
| VInt (n : Z)
| VString (s : string)
| VStrings (o : option (list string))
| VInts (o : option (list Z))
| VPtr (target : option GoValue)
| VStruct (fields : list (StructField GoValue)).

Inductive panic :=
| IndexOutOfRange (index len : nat)
| ParseBoolError (input : string)
| InterfaceConversion (have : GoValue) (want : string)
| PanicString (msg : string).

Inductive result (A : Type) :=
| Ok (a : A)
| Panic (p : panic).
Arguments Ok {A} _.
Arguments Panic {A} _.

(** Sequencing: a panic ends the computation.  With these instances
    [x ← r; k] is stdpp's notation for it. *)
Global Instance result_ret : MRet result := λ A a, Ok a.
Global Instance result_bind : MBind result := λ A B k r,
  match r with
  | Ok a => k a
  | Panic p => Panic p
  end.

Definition panics {A} (r : result A) : Prop := ∃ p, r = Panic p.

(** ** Package [strings] and [strconv] *)

Definition isPrefix (p s : string) : bool := String.prefix p s.

(** [strings.Index]: byte offset of the first occurrence, [-1] if none. *)
Fixpoint Index (s substr : string) : Z :=
  if isPrefix substr s then 0
  else match s with
       | EmptyString => -1
       | String _ s' => let i := Index s' substr in if i =? -1 then -1 else i + 1
       end.

(** [s[:n]] *)
Fixpoint slice_to (s : string) (n : nat) : string :=
  match n, s with
  | S n', String c s' => String c (slice_to s' n')
  | _, _ => EmptyString
  end.

Fixpoint inCutset (cutset : string) (c : ascii) : bool :=
  match cutset with
  | EmptyString => false
  | String d rest => Ascii.eqb c d || inCutset rest c
  end.

Fixpoint trimLeftBytes (cut : ascii → bool) (s : string) : string :=
  match s with
  | EmptyString => EmptyString
  | String c s' => if cut c then trimLeftBytes cut s' else s
  end.

Fixpoint trimRightBytes (cut : ascii → bool) (s : string) : string :=
  match s with
  | EmptyString => EmptyString
  | String c s' =>
      match trimRightBytes cut s' with
      | EmptyString => if cut c then EmptyString else String c EmptyString
      | r => String c r
      end
  end.

(** [strings.Trim] with a cutset of ASCII bytes (the package passes [" ;,"]):
    leading and trailing bytes of the cutset are removed. *)
Definition Trim (s cutset : string) : string :=
  trimRightBytes (inCutset cutset) (trimLeftBytes (inCutset cutset) s).

(** [strings.Split] with a one-byte separator (the package passes [";"] and
    [":"]): the pieces between the separators, [n + 1] of them for [n]
    separators. *)
Fixpoint Split (s : string) (sep : ascii) : list string :=
  match s with
  | EmptyString => [EmptyString]
  | String c s' =>
      if Ascii.eqb c sep then EmptyString :: Split s' sep
      else match Split s' sep with
           | piece :: pieces => String c piece :: pieces
           | [] => [String c EmptyString]
           end
  end.

(** The UTF-8 encodings of the code points for which [unicode.IsSpace]
    holds: U+0009..U+000D, U+0020, U+0085, U+00A0, U+1680, U+2000..U+200A,
    U+2028, U+2029, U+202F, U+205F, U+3000. *)
Definition bytes (l : list nat) : string :=
  String.string_of_list_ascii (ascii_of_nat <$> l).

Definition spaceRunes : list string :=
  (bytes <$> [[9]; [10]; [11]; [12]; [13]; [32]; [194; 133]; [194; 160];
              [225; 154; 128]])%nat
  ++ ((λ b, bytes [226; 128; b]) <$> seq 128 11)%nat
  ++ (bytes <$> [[226; 128; 168]; [226; 128; 169]; [226; 128; 175];
                 [226; 129; 159]; [227; 128; 128]])%nat.

(** Length in bytes of the white-space rune at the head of [s], if any. *)
Definition spaceAtHead (s : string) : option nat :=
  String.length <$> List.find (λ r, isPrefix r s) spaceRunes.

Fixpoint drop_bytes (n : nat) (s : string) : string :=
  match n, s with
  | S n', String _ s' => drop_bytes n' s'
  | _, _ => s
  end.

Fixpoint trimLeftSpace (fuel : nat) (s : string) : string :=
  match fuel with
  | O => s
  | S fuel' =>
      match spaceAtHead s with
      | Some n => trimLeftSpace fuel' (drop_bytes n s)
      | None => s
      end
  end.

Definition rev_string (s : string) : string :=
  String.string_of_list_ascii (rev (String.list_ascii_of_string s)).

Definition spaceAtTail (rs : string) : option nat :=
  String.length <$> List.find (λ r, isPrefix (rev_string r) rs) spaceRunes.

Fixpoint trimLeftSpaceRev (fuel : nat) (rs : string) : string :=
  match fuel with
  | O => rs
  | S fuel' =>
      match spaceAtTail rs with
      | Some n => trimLeftSpaceRev fuel' (drop_bytes n rs)
      | None => rs
      end
  end.

(** [strings.TrimSpace]: all leading and trailing white space removed, as
    defined by Unicode.  Every white-space rune has at least one byte, so a
    fuel of the length of the string is never exhausted. *)
Definition TrimSpace (s : string) : string :=
  let l := trimLeftSpace (String.length s) s in
  rev_string (trimLeftSpaceRev (String.length l) (rev_string l)).

(** [strconv.ParseBool]: [None] stands for the returned error. *)
Definition ParseBool (str : string) : option bool :=
  if existsb (String.eqb str) ["1"; "t"; "T"; "TRUE"; "true"; "True"] then Some true
  else if existsb (String.eqb str) ["0"; "f"; "F"; "FALSE"; "false"; "False"] then Some false
  else None.

(** [strings.Join] *)
Fixpoint Join (elems : list string) (sep : string) : string :=
  match elems with
  | [] => ""
  | [e] => e
  | e :: rest => e +:+ sep +:+ Join rest sep
  end.

(** [l[i]] on a slice: a run-time panic when [i] is out of range. *)
Definition index {A} (l : list A) (i : nat) : result A :=
  match l !! i with
  | Some x => Ok x
  | None => Panic (IndexOutOfRange i (length l))
  end.

(** [for _, x := range l { s = body(s, x) }], where the body may panic. *)
Fixpoint for_range {A S} (body : S → A → result S) (l : list A) (s : S) : result S :=
  match l with
  | [] => Ok s
  | x :: rest => s' ← body s x; for_range body rest s'
  end.

(** ** Package [reflect] *)

(** A [reflect.Value]: the zero Value, the Value of a Go value
    ([reflect.ValueOf(x)], an exported field, what an ordinary pointer
    points to), or the Value of an unexported struct field, which can be
    inspected but not turned back into an [interface{}]. *)
Inductive Value :=
| ZeroValue
| ValueOf (v : GoValue)
| ReadOnly (v : GoValue).

Definition Kind_of (v : GoValue) : GoKind :=
  match v with
  | VBool _ => Bool
  | VInt _ => Int
  | VString _ => String_
  | VStrings _ | VInts _ => Slice
  | VPtr _ => Ptr
  | VStruct _ => Struct
  end.

Definition Kind (rv : Value) : GoKind :=
  match rv with
  | ZeroValue => Invalid
  | ValueOf v | ReadOnly v => Kind_of v
  end.

Definition GoKind_eqb (a b : GoKind) : bool :=
  match a, b with
  | Invalid, Invalid | Bool, Bool | Int, Int | String_, String_
  | Slice, Slice | Ptr, Ptr | Struct, Struct => true
  | _, _ => false
  end.

(** [Value.Elem] of a pointer: the zero Value for a nil pointer. *)
Definition Elem (rv : Value) : Value :=
  match rv with
  | ValueOf (VPtr (Some target)) => ValueOf target
  | ReadOnly (VPtr (Some target)) => ReadOnly target
  | _ => ZeroValue
  end.

(** The fields of a struct Value, in the order of their declaration. *)
Definition Fields (rv : Value) : list (StructField GoValue) :=
  match rv with
  | ValueOf (VStruct fields) | ReadOnly (VStruct fields) => fields
  | _ => []
  end.

(** [rv.Field(i)], for a struct [rv] that is not itself read-only: the
    Value of an exported field can be returned by [Interface], the Value
    of an unexported field cannot. *)
Definition Field (f : StructField GoValue) : Value :=
  if Exported f then ValueOf (FieldValue f) else ReadOnly (FieldValue f).

Fixpoint isZero (v : GoValue) : bool :=
  match v with
  | VBool b => negb b
  | VInt n => n =? 0
  | VString s => String.eqb s ""
  | VStrings o => match o with None => true | Some _ => false end
  | VInts o => match o with None => true | Some _ => false end
  | VPtr target => match target with None => true | Some _ => false end
  | VStruct fields => forallb (λ f, isZero (FieldValue f)) fields
  end.

(** [Value.IsZero]; it panics on the zero Value. *)
Definition IsZero (rv : Value) : result bool :=
  match rv with
  | ValueOf v | ReadOnly v => Ok (isZero v)
  | ZeroValue => Panic (PanicString "reflect: call of reflect.Value.IsZero on zero Value")
  end.

Definition Len_of (v : GoValue) : nat :=
  match v with
  | VStrings (Some l) => length l
  | VInts (Some l) => length l
  | _ => 0%nat
  end.

(** [Value.Len] of a slice. *)
Definition Len (rv : Value) : nat :=
  match rv with
  | ValueOf v | ReadOnly v => Len_of v
  | ZeroValue => 0%nat
  end.

(** The panic of [Value.Interface] on a Value read from an unexported
    field ([valueInterface] of package reflect, under [flagRO]). *)
Definition unexported_field : panic :=
  PanicString "reflect.Value.Interface: cannot return value obtained from unexported field or method".

(** [Value.Interface]; it panics on the zero Value and on the Value of an
    unexported field. *)
Definition Interface (rv : Value) : result GoValue :=
  match rv with
  | ValueOf v => Ok v
  | ReadOnly _ => Panic unexported_field
  | ZeroValue => Panic (PanicString "reflect: call of reflect.Value.Interface on zero Value")
  end.

(** The type assertions [value.(string)] and [value.([]string)]. *)
Definition assert_string (value : GoValue) : result string :=
  match value with
  | VString s => Ok s
  | _ => Panic (InterfaceConversion value "string")
  end.

Definition assert_strings (value : GoValue) : result (list string) :=
  match value with
  | VStrings (Some l) => Ok l
  | VStrings None => Ok []
  | _ => Panic (InterfaceConversion value "[]string")
  end.

(** ** Package [filter] *)

Module op.
Definition Eq := "=".
Definition Like := "like".
Definition Rlike := "rlike".
Definition GT := ">".
Definition LT := "<".
Definition GTE := ">=".
Definition LTE := "<=".
Definition In := "in".
Definition DateRange := "date_range".
End op.

Record Rule := mkRule {
  Name : string;
  Opt : string;
  Table : string;
  UseZero : bool
}.

Definition set_Name (rule : Rule) (s : string) : Rule :=
  mkRule s (Opt rule) (Table rule) (UseZero rule).
Definition set_Opt (rule : Rule) (s : string) : Rule :=
  mkRule (Name rule) s (Table rule) (UseZero rule).
Definition set_Table (rule : Rule) (s : string) : Rule :=
  mkRule (Name rule) (Opt rule) s (UseZero rule).
Definition set_UseZero (rule : Rule) (b : bool) : Rule :=
  mkRule (Name rule) (Opt rule) (Table rule) b.

Definition removeOmitempty (tag : string) : string :=
  let idx := Index tag ",omitempty" in
  if negb (idx =? -1) then slice_to tag (Z.to_nat idx)
  else
    let idx := Index tag ",optional" in
    if negb (idx =? -1) then slice_to tag (Z.to_nat idx)
    else tag.

Definition parseRule (rule : Rule) (rfVal : Value)
    (conditions : list string) (params : list GoValue)
    : result (list string * list GoValue) :=
  let rule :=
    if negb (String.eqb (Table rule) "")
    then set_Name rule (Table rule +:+ "." +:+ Name rule) else rule in
  let rule := if String.eqb (Opt rule) "" then set_Opt rule op.Eq else rule in
  value ← Interface rfVal;
  if String.eqb (Opt rule) op.Eq then
    Ok (conditions ++ [Name rule +:+ " = ?"], params ++ [value])
  else if String.eqb (Opt rule) op.Like then
    s ← assert_string value;
    Ok (conditions ++ [Name rule +:+ " like ?"], params ++ [VString ("%" +:+ s +:+ "%")])
  else if String.eqb (Opt rule) op.Rlike then
    Ok (conditions ++ [Name rule +:+ " rlike ?"], params ++ [value])
  else if String.eqb (Opt rule) op.GT then
    Ok (conditions ++ [Name rule +:+ " > ?"], params ++ [value])
  else if String.eqb (Opt rule) op.LT then
    Ok (conditions ++ [Name rule +:+ " < ?"], params ++ [value])
  else if String.eqb (Opt rule) op.GTE then
    Ok (conditions ++ [Name rule +:+ " >= ?"], params ++ [value])
  else if String.eqb (Opt rule) op.LTE then
    Ok (conditions ++ [Name rule +:+ " <= ?"], params ++ [value])
  else if String.eqb (Opt rule) op.In then
    Ok (conditions ++ [Name rule +:+ " in (?)"], params ++ [value])
  else if String.eqb (Opt rule) op.DateRange then
    dates ← assert_strings value;
    match dates with
    | [d0; d1] =>
        let sTime := d0 +:+ " 00:00:00" in
        let eTime := d1 +:+ " 23:59:59" in
        Ok (conditions ++ [Name rule +:+ " between ? and ?"],
            params ++ [VString sTime; VString eTime])
    | _ => Panic (PanicString "date_range rule requires two values")
    end
  else Ok (conditions, params).

(** The body of the loop over the entries of one [filter] tag. *)
Definition Filter_tag (rule : Rule) (filterTag : string) : result Rule :=
  let kv := Split filterTag ":" in
  k0 ← index kv 0;
  let k := TrimSpace k0 in
  v1 ← index kv 1;
  let v := TrimSpace v1 in
  if String.eqb k "opt" then Ok (set_Opt rule v)
  else if String.eqb k "table" then Ok (set_Table rule v)
  else if String.eqb k "use_zero" || String.eqb k "useZero" then
    match ParseBool v with
    | Some b => Ok (set_UseZero rule b)
    | None => Panic (ParseBoolError v)
    end
  else Ok rule.

(** The body of the loop over the fields of the struct. *)
Definition Filter_field (st : gmap string Value * list Rule)
    (f : StructField GoValue) : result (gmap string Value * list Rule) :=
  let '(destMap, rules) := st in
  let filterTagStr := Trim (Tag_filter f) " ;," in
  if String.eqb filterTagStr "" || String.eqb filterTagStr "-" then Ok (destMap, rules)
  else
    let rule := mkRule (TrimSpace (removeOmitempty (Tag_json f))) "" "" false in
    let destMap := <[Name rule := Field f]> destMap in
    let filterTags := Split filterTagStr ";" in
    rule ← for_range Filter_tag filterTags rule;
    Ok (destMap, rules ++ [rule]).

(** The body of the loop over the rules, in [Filter]. *)
Definition Filter_rule (destMap : gmap string Value)
    (st : list string * list GoValue) (rule : Rule)
    : result (list string * list GoValue) :=
  let '(conditions, params) := st in
  let rfVal := default ZeroValue (destMap !! Name rule) in
  let emptySlice := GoKind_eqb (Kind rfVal) Slice && (Len rfVal =? 0)%nat in
  z ← IsZero rfVal;
  if (z || emptySlice) && negb (UseZero rule) then Ok (conditions, params)
  else parseRule rule rfVal conditions params.

(** The body of the loop that fills [destMap], in [Search]. *)
Definition Search_field (destMap : gmap string Value)
    (f : StructField GoValue) : gmap string Value :=
  let jsonField := TrimSpace (removeOmitempty (Tag_json f)) in
  if negb (String.eqb jsonField "") then <[jsonField := Field f]> destMap
  else destMap.

(** The body of the loop over the rules, in [Search]. *)
Definition Search_rule (destMap : gmap string Value)
    (st : list string * list GoValue) (rule : Rule)
    : result (list string * list GoValue) :=
  let '(conditions, params) := st in
  match destMap !! Name rule with
  | None => Ok (conditions, params)
  | Some rfVal =>
      z ← IsZero rfVal;
      if z && negb (UseZero rule) then Ok (conditions, params)
      else parseRule rule rfVal conditions params
  end.

(** The body of the loop over the rules, in [MultiSearch]. *)
Definition MultiSearch_rule (rfVal : Value)
    (st : list string * list GoValue) (rule : Rule)
    : result (list string * list GoValue) :=
  let '(conditions, params) := st in
  parseRule rule rfVal conditions params.

(** The struct a transform works on: [dest] itself, or what it points to. *)
Definition struct_of (dest : GoValue) : Value :=
  let rv := ValueOf dest in
  if GoKind_eqb (Kind rv) Ptr then Elem rv else rv.

Section Executor.
(** The query executor: [db.Where(query, args...)] changes the statement
    of [db], which the transform then returns. *)
Context {DB : Type} (Where : string → list GoValue → DB → DB).

Definition Filter (dest : GoValue) (db : DB) : result DB :=
  let rv := struct_of dest in
  if negb (GoKind_eqb (Kind rv) Struct) then Ok db
  else
    '(destMap, rules) ← for_range Filter_field (Fields rv) (∅, []);
    if (length rules =? 0)%nat then Ok db
    else
      '(conditions, params) ← for_range (Filter_rule destMap) rules ([], []);
      let queryStr := Join conditions " AND " in
      Ok (Where queryStr params db).

Definition Search (rules : list Rule) (dest : GoValue) (db : DB) : result DB :=
  let rv := struct_of dest in
  if negb (GoKind_eqb (Kind rv) Struct) then Ok db
  else if (length rules =? 0)%nat then Ok db
  else
    let destMap := foldl Search_field ∅ (Fields rv) in
    '(conditions, params) ← for_range (Search_rule destMap) rules ([], []);
    let queryStr := Join conditions " AND " in
    Ok (Where queryStr params db).

Definition MultiSearch (rules : list Rule) (dest : string) (db : DB) : result DB :=
  let dest := TrimSpace dest in
  if String.eqb dest "" then Ok db
  else if (length rules =? 0)%nat then Ok db
  else
    let rfVal := ValueOf (VString dest) in
    '(conditions, params) ← for_range (MultiSearch_rule rfVal) rules ([], []);
    let queryStr := Join conditions " OR " in
    Ok (Where queryStr params db).
End Executor.

(** The structs of the package's examples. *)
Definition MockUserFilter (name : string) (age : Z) : GoValue :=
  VStruct [ mkField "name" "opt:rlike" (VString name);
            mkField "age" "opt:=" (VInt age) ].

Definition MockUser : GoValue := MockUserFilter "John" 20.

Definition MockRules : list Rule :=
  [mkRule "name" "rlike" "" false; mkRule "age" "=" "" false].

(** ** The vocabulary of the properties

    Definitions that state the properties; none of them is part of the
    package. *)

(** The column a rule is rendered on: [table.name] with a table qualifier,
    the bare name without. *)
Definition column (rule : Rule) : string :=
  if String.eqb (Table rule) "" then Name rule
  else Table rule +:+ "." +:+ Name rule.

(** The operators of the fixed enumeration. *)
Definition operators : list string :=
  [op.Eq; op.Like; op.Rlike; op.GT; op.LT; op.GTE; op.LTE; op.In; op.DateRange].

(** The byte [c] occurs in [s]. *)
Fixpoint contains_byte (c : ascii) (s : string) : bool :=
  match s with
  | EmptyString => false
  | String d s' => Ascii.eqb d c || contains_byte c s'
  end.

(** How [Filter] reads one entry of a tag: the key is the trimmed text
    before the first colon, the value the trimmed text between the first
    colon and the second (or the end). *)
Definition entry_key (entry : string) : string :=
  TrimSpace (default "" (Split entry ":" !! 0%nat)).

Definition entry_value (entry : string) : option string :=
  TrimSpace <$> Split entry ":" !! 1%nat.

(** A field is a rule source when its [filter] tag, trimmed of blanks,
    semicolons and commas, is neither empty nor the exclusion marker. *)
Definition annotated (f : StructField GoValue) : bool :=
  let filterTagStr := Trim (Tag_filter f) " ;," in
  negb (String.eqb filterTagStr "" || String.eqb filterTagStr "-").

(** The entries of the [filter] tag of a field. *)
Definition entries (f : StructField GoValue) : list string :=
  Split (Trim (Tag_filter f) " ;,") ";".

Definition is_use_zero (k : string) : bool :=
  String.eqb k "use_zero" || String.eqb k "useZero".

(** The Go value behind a Value, readable or not. *)
Definition underlying (rv : Value) : option GoValue :=
  match rv with
  | ZeroValue => None
  | ValueOf v | ReadOnly v => Some v
  end.

(** An empty slice, nil or not: [Kind() == reflect.Slice && Len() == 0]. *)
Definition empty_slice (v : GoValue) : bool :=
  GoKind_eqb (Kind_of v) Slice && (Len_of v =? 0)%nat.

(** The placeholders of a text: its [?] bytes. *)
Fixpoint placeholders (s : string) : nat :=
  match s with
  | EmptyString => 0
  | String c s' => (if Ascii.eqb c "?" then 1 else 0) + placeholders s'
  end%nat.

(** What follows the column in the fragment of an operator; the unset
    operator stands for [=]. *)
Definition template (opt : string) : string :=
  let opt := if String.eqb opt "" then op.Eq else opt in
  if String.eqb opt op.Eq then " = ?"
  else if String.eqb opt op.Like then " like ?"
  else if String.eqb opt op.Rlike then " rlike ?"
  else if String.eqb opt op.GT then " > ?"
  else if String.eqb opt op.LT then " < ?"
  else if String.eqb opt op.GTE then " >= ?"
  else if String.eqb opt op.LTE then " <= ?"
  else if String.eqb opt op.In then " in (?)"
  else if String.eqb opt op.DateRange then " between ? and ?"
  else "".

Definition recognized (opt : string) : bool :=
  String.eqb opt "" || bool_decide (opt ∈ operators).

Definition fragment_of (rule : Rule) : string :=
  column rule +:+ template (Opt rule).

(** A rendered rule and the params it has added: the operator is a
    recognized one and there is one param for each placeholder of its
    template, two for a date range and one otherwise. *)
Definition rendered_ok (ra : Rule * list GoValue) : Prop :=
  recognized (Opt ra.1) = true
  ∧ length ra.2 = placeholders (template (Opt ra.1))
  ∧ length ra.2 = (if String.eqb (Opt ra.1) op.DateRange then 2 else 1)%nat.

(** A query is the list of the conditions attached to it.  [gorm_Where]
    follows the method [Where] of gorm's [DB]: the condition and its
    arguments are added to the query, except that an empty condition
    string without arguments builds no condition at all. *)
Definition Query : Type := list (string * list GoValue).

Definition gorm_Where (query : string) (args : list GoValue) (db : Query) : Query :=
  if String.eqb query "" && (length args =? 0)%nat then db
  else db ++ [(query, args)].

(** The rules of the state of the extraction are bound in its map. *)
Definition all_bound (st : gmap string Value * list Rule) : Prop :=
  ∀ rule, rule ∈ st.2 → is_Some (st.1 !! Name rule).

(** The name a field goes by: its [json] tag without the [omitempty] or
    [optional] modifier, trimmed. *)
Definition jsonName (f : StructField GoValue) : string :=
  TrimSpace (removeOmitempty (Tag_json f)).

(** The operators that bind the value as it is. *)
Definition raw_operators : list string :=
  [""; op.Eq; op.Rlike; op.GT; op.LT; op.GTE; op.LTE; op.In].

(** What one entry of a tag sets: the operator, the table, the flag. *)
Definition entry_opt (entry : string) : option string :=
  if String.eqb (entry_key entry) "opt" then entry_value entry else None.

Definition entry_table (entry : string) : option string :=
  if String.eqb (entry_key entry) "table" then entry_value entry else None.

Definition entry_use_zero (entry : string) : option bool :=
  if is_use_zero (entry_key entry) then entry_value entry ≫= ParseBool else None.

(** An entry that [Filter] reads without panic: it has a colon, and when
    its key is [use_zero] or [useZero] its value is a boolean for
    [strconv.ParseBool]. *)
Definition well_formed (entry : string) : bool :=
  match entry_value entry with
  | None => false
  | Some v =>
      negb (is_use_zero (entry_key entry))
      || match ParseBool v with Some _ => true | None => false end
  end.

Definition field_ok (f : StructField GoValue) : bool :=
  negb (annotated f) || forallb well_formed (entries f).

(** The panics of the extraction and the panics of the rendering. *)
Inductive extraction_panic : panic → Prop :=
| panic_no_colon : extraction_panic (IndexOutOfRange 1 1)
| panic_bad_bool v : ParseBool v = None → extraction_panic (ParseBoolError v).

Inductive render_panic : panic → Prop :=
| panic_not_string v :
    (∀ s, v ≠ VString s) → render_panic (InterfaceConversion v "string")
| panic_not_strings v :
    (∀ o, v ≠ VStrings o) → render_panic (InterfaceConversion v "[]string")
| panic_two_values :
    render_panic (PanicString "date_range rule requires two values")
| panic_unexported : render_panic unexported_field.

(** A map whose Values were all read from fields of [fields]. *)
Definition from_fields (fields : list (StructField GoValue))
    (destMap : gmap string Value) : Prop :=
  ∀ k rv, destMap !! k = Some rv → ∃ f, f ∈ fields ∧ rv = Field f.

(** The param of a rule in [MultiSearch]: the keyword, between [%] for
    the operator [like]. *)
Definition keyword_param (kw : string) (rule : Rule) : GoValue :=
  if String.eqb (Opt rule) op.Like then VString ("%" +:+ kw +:+ "%")
  else VString kw.

Definition is_recognized (rule : Rule) : bool := recognized (Opt rule).

(** The bytes of ASCII white space. *)
Definition blank_byte (c : ascii) : bool :=
  existsb (Ascii.eqb c) ["009"; "010"; "011"; "012"; "013"; " "]%char.

Fixpoint all_bytes (P : ascii → bool) (s : string) : bool :=
  match s with
  | EmptyString => true
  | String c s' => P c && all_bytes P s'
  end.

(** The same field under another [filter] tag. *)
Definition retag (g : StructField GoValue → string) (f : StructField GoValue)
    : StructField GoValue :=
  mkStructField (Exported f) (Tag_json f) (g f) (FieldValue f).

(** The rules that pass the skip policy of [Search] and of [Filter] and
    have a recognized operator. *)
Definition Search_keeps (destMap : gmap string Value) (rule : Rule) : bool :=
  match destMap !! Name rule ≫= underlying with
  | Some v => negb (isZero v && negb (UseZero rule)) && is_recognized rule
  | None => false
  end.

Definition Filter_keeps (destMap : gmap string Value) (rule : Rule) : bool :=
  match destMap !! Name rule ≫= underlying with
  | Some v => negb ((isZero v || empty_slice v) && negb (UseZero rule)) && is_recognized rule
  | None => false
  end.

(** The operators whose value has to be of one type. *)
Definition typed_operator (rule : Rule) : Prop :=
  Opt rule = op.Like ∨ Opt rule = op.DateRange.

(** The params a rule is rendered with on the value [v]: the value
    between [%] for [like], the two ends of the days for [date_range], the
    value as it is for the other operators. *)
Definition params_of (rule : Rule) (v : GoValue) : list GoValue :=
  if String.eqb (Opt rule) op.Like then
    match v with
    | VString s => [VString ("%" +:+ s +:+ "%")]
    | _ => []
    end
  else if String.eqb (Opt rule) op.DateRange then
    match v with
    | VStrings (Some [s; e]) =>
        [VString (s +:+ " 00:00:00"); VString (e +:+ " 23:59:59")]
    | _ => []
    end
  else if recognized (Opt rule) then [v]
  else [].

(** The value on which each loop renders a rule, [None] for a rule that
    the loop skips. *)
Definition Filter_pick (destMap : gmap string Value) (rule : Rule) : option GoValue :=
  v ← destMap !! Name rule ≫= underlying;
  if (isZero v || empty_slice v) && negb (UseZero rule) then None else Some v.

Definition Search_pick (destMap : gmap string Value) (rule : Rule) : option GoValue :=
  v ← destMap !! Name rule ≫= underlying;
  if isZero v && negb (UseZero rule) then None else Some v.

Definition MultiSearch_pick (rfVal : Value) (rule : Rule) : option GoValue :=
  underlying rfVal.

Inductive loop_of :
  (list string * list GoValue → Rule → result (list string * list GoValue)) →
  (Rule → option GoValue) → Prop :=
| loop_of_Filter destMap : loop_of (Filter_rule destMap) (Filter_pick destMap)
| loop_of_Search destMap : loop_of (Search_rule destMap) (Search_pick destMap)
| loop_of_MultiSearch rfVal :
    loop_of (MultiSearch_rule rfVal) (MultiSearch_pick rfVal).

(** The rules that a loop renders, each with the value it is rendered on:
    the rules that are not skipped and have a recognized operator, in the
    order of the rule list. *)
Definition rendered_rules (pick : Rule → option GoValue) (rules : list Rule)
    : list (Rule * GoValue) :=
  omap (λ rule, if recognized (Opt rule) then pair rule <$> pick rule else None) rules.

Definition fragment_params (rv : Rule * GoValue) : list GoValue :=
  params_of rv.1 rv.2.

(** What the executor does with a condition and its params: every [?] of
    the text, from left to right, takes the next param (written by
    [show]); the text so filled comes back with the params left over. *)
Fixpoint fill (show : GoValue → string) (s : string) (params : list GoValue)
    : string * list GoValue :=
  match s with
  | EmptyString => (EmptyString, params)
  | String c s' =>
      if Ascii.eqb c "?" then
        match params with
        | p :: rest =>
            let '(filled, unused) := fill show s' rest in (show p +:+ filled, unused)
        | [] =>
            let '(filled, unused) := fill show s' [] in (String c filled, unused)
        end
      else
        let '(filled, unused) := fill show s' params in (String c filled, unused)
  end.

(** What a rule adds when it is rendered: its fragment and its params, as
    many as the template of its operator has placeholders. *)
Definition adds (rule : Rule) (v : GoValue)
    (c c' : list string) (p p' : list GoValue) : Prop :=
  c' = c ++ [fragment_of rule] ∧ p' = p ++ params_of rule v
  ∧ length (params_of rule v) = placeholders (template (Opt rule))
  ∧ length (params_of rule v)
    = (if String.eqb (Opt rule) op.DateRange then 2 else 1)%nat.

Definition counted (rv : Rule * GoValue) : Prop :=
  length (fragment_params rv) = placeholders (template (Opt rv.1))
  ∧ length (fragment_params rv)
    = (if String.eqb (Opt rv.1) op.DateRange then 2 else 1)%nat.

(** A fragment filled with the params of its own rule. *)
Definition filled (show : GoValue → string) (rv : Rule * GoValue) : string :=
  (fill show (fragment_of rv.1) (fragment_params rv)).1.

(** * Properties *)

(** ** Package [strings] on examples *)

Example Trim_ex : Trim " ;opt:rlike; table:u ;," " ;," = "opt:rlike; table:u".
Proof. reflexivity. Qed.
Example Split_ex : Split "a;;b;" ";" = ["a"; ""; "b"; ""].
Proof. reflexivity. Qed.
Example TrimSpace_ex : TrimSpace (bytes [32; 9; 194; 160; 97; 32; 98; 226; 128; 129; 10]%nat) = "a b".
Proof. vm_compute. reflexivity. Qed.
Example Index_ex : Index "name,omitempty" ",omitempty" = 4.
Proof. reflexivity. Qed.

(** The fuel of [TrimSpace] is enough: after each of its two passes no
    white space is left at the end that the pass trims. *)
Lemma isPrefix_length (p s : string) :
  isPrefix p s = true → (String.length p ≤ String.length s)%nat.
Proof.
  unfold isPrefix. revert s. induction p as [|a p IH]; intros [|b s]; cbn;
    [lia|lia|done|].
  destruct (ascii_dec a b); [|done]. intros H%IH. lia.
Qed.

Lemma length_drop_bytes (n : nat) (s : string) :
  String.length (drop_bytes n s) = (String.length s - n)%nat.
Proof.
  revert s. induction n as [|n IH]; intros [|c s]; cbn; try done; lia.
Qed.

Lemma length_string_of_list (l : list ascii) :
  String.length (String.string_of_list_ascii l) = length l.
Proof. induction l; cbn; congruence. Qed.

Lemma length_list_of_string (s : string) :
  length (String.list_ascii_of_string s) = String.length s.
Proof. induction s; cbn; congruence. Qed.

Lemma length_rev_string (s : string) :
  String.length (rev_string s) = String.length s.
Proof.
  unfold rev_string. by rewrite length_string_of_list, length_rev, length_list_of_string.
Qed.

Lemma spaceRunes_length :
  Forall (λ r, (1 ≤ String.length r)%nat) spaceRunes.
Proof. compute_done. Qed.

Lemma spaceAtHead_bound (s : string) (n : nat) :
  spaceAtHead s = Some n → (1 ≤ n ≤ String.length s)%nat.
Proof.
  unfold spaceAtHead. destruct (List.find _ _) as [r|] eqn:E; [|done].
  intros [= <-]. apply List.find_some in E as [Hin Hp%isPrefix_length].
  apply list_elem_of_In in Hin.
  pose proof (proj1 (Forall_forall _ _) spaceRunes_length r Hin) as Hr.
  cbn beta in Hr. lia.
Qed.

Lemma spaceAtTail_bound (rs : string) (n : nat) :
  spaceAtTail rs = Some n → (1 ≤ n ≤ String.length rs)%nat.
Proof.
  unfold spaceAtTail. destruct (List.find _ _) as [r|] eqn:E; [|done].
  intros [= <-]. apply List.find_some in E as [Hin Hp%isPrefix_length].
  apply list_elem_of_In in Hin. rewrite length_rev_string in Hp.
  pose proof (proj1 (Forall_forall _ _) spaceRunes_length r Hin) as Hr.
  cbn beta in Hr. lia.
Qed.

Lemma trimLeftSpace_trimmed (fuel : nat) (s : string) :
  (String.length s ≤ fuel)%nat → spaceAtHead (trimLeftSpace fuel s) = None.
Proof.
  revert s. induction fuel as [|fuel IH]; intros s Hlen.
  - destruct s; [reflexivity | cbn in Hlen; lia].
  - cbn [trimLeftSpace]. destruct (spaceAtHead s) as [n|] eqn:E; [|done].
    apply spaceAtHead_bound in E. apply IH. rewrite length_drop_bytes. lia.
Qed.

Lemma trimLeftSpaceRev_trimmed (fuel : nat) (rs : string) :
  (String.length rs ≤ fuel)%nat → spaceAtTail (trimLeftSpaceRev fuel rs) = None.
Proof.
  revert rs. induction fuel as [|fuel IH]; intros rs Hlen.
  - destruct rs; [reflexivity | cbn in Hlen; lia].
  - cbn [trimLeftSpaceRev]. destruct (spaceAtTail rs) as [n|] eqn:E; [|done].
    apply spaceAtTail_bound in E. apply IH. rewrite length_drop_bytes. lia.
Qed.

Lemma TrimSpace_fuel (s : string) :
  let l := trimLeftSpace (String.length s) s in
  spaceAtHead l = None
  ∧ spaceAtTail (trimLeftSpaceRev (String.length l) (rev_string l)) = None.
Proof.
  split.
  - by apply trimLeftSpace_trimmed.
  - apply trimLeftSpaceRev_trimmed. by rewrite length_rev_string.
Qed.

(** ** The renderer, [parseRule] *)

Lemma eqb_false_of_ne (s t : string) : s ≠ t → String.eqb s t = false.
Proof. intros H. by apply String.eqb_neq. Qed.

Lemma not_operator_eqb (o : string) :
  o ∉ operators →
  String.eqb o op.Eq = false ∧ String.eqb o op.Like = false ∧
  String.eqb o op.Rlike = false ∧ String.eqb o op.GT = false ∧
  String.eqb o op.LT = false ∧ String.eqb o op.GTE = false ∧
  String.eqb o op.LTE = false ∧ String.eqb o op.In = false ∧
  String.eqb o op.DateRange = false.
Proof.
  intros Hn. repeat split; apply eqb_false_of_ne; intros ->; apply Hn;
    unfold operators; set_solver.
Qed.

Lemma parseRule_qualified (rule : Rule) rfVal conditions params :
  parseRule rule rfVal conditions params =
  parseRule (mkRule (column rule) (Opt rule) "" (UseZero rule)) rfVal conditions params.
Proof.
  destruct rule as [n o t u]. unfold parseRule, column, set_Name, set_Opt.
  cbn [Table Name Opt UseZero].
  destruct (String.eqb t "") eqn:E; [apply String.eqb_eq in E; subst t|];
    cbn [negb String.eqb Table Name Opt UseZero];
    destruct (String.eqb o ""); reflexivity.
Qed.

Lemma Filter_rule_on_value (destMap : gmap string Value) (rule : Rule)
    (rv : Value) (v : GoValue) (st : list string * list GoValue) :
  destMap !! Name rule = Some rv → underlying rv = Some v →
  Filter_rule destMap st rule
  = if (isZero v || empty_slice v) && negb (UseZero rule) then Ok st
    else parseRule rule rv st.1 st.2.
Proof.
  intros Hrv Hv. destruct st as [c p]. unfold Filter_rule, empty_slice.
  rewrite Hrv. by destruct rv; simplify_eq/=.
Qed.

Lemma Search_rule_on_value (destMap : gmap string Value) (rule : Rule)
    (rv : Value) (v : GoValue) (st : list string * list GoValue) :
  destMap !! Name rule = Some rv → underlying rv = Some v →
  Search_rule destMap st rule
  = if isZero v && negb (UseZero rule) then Ok st
    else parseRule rule rv st.1 st.2.
Proof.
  intros Hrv Hv. destruct st as [c p]. unfold Search_rule.
  rewrite Hrv. by destruct rv; simplify_eq/=.
Qed.

Lemma Search_rule_unmatched (destMap : gmap string Value) (rule : Rule)
    (st : list string * list GoValue) :
  destMap !! Name rule = None → Search_rule destMap st rule = Ok st.
Proof.
  intros Hv. destruct st as [c p]. unfold Search_rule. by rewrite Hv.
Qed.

Lemma lookup_underlying (destMap : gmap string Value) (k : string) (v : GoValue) :
  destMap !! k ≫= underlying = Some v →
  ∃ rv, destMap !! k = Some rv ∧ underlying rv = Some v.
Proof. destruct (destMap !! k) as [rv|]; [by eauto|done]. Qed.

Section Examples.
Context {DB : Type} (Where : string → list GoValue → DB → DB).

(** C3: [Filter] on the struct [{Name:"John", Age:20}], whose fields are
    tagged [json:"name" filter:"opt:rlike"] and [json:"age" filter:"opt:="],
    hands the executor the condition ["name rlike ? AND age = ?"] with the
    params ["John"; 20], in the order of the fields; this for every
    executor and every query. *)
Theorem Filter_MockUser (db : DB) :
  Filter Where MockUser db
  = Ok (Where "name rlike ? AND age = ?" [VString "John"; VInt 20] db).
Proof. vm_compute. reflexivity. Qed.

(** C4: [Search] with the rules [{name, rlike}; {age, =}] on the same
    struct gives what [Filter] gives on it: the same condition string and
    the same params, for every executor and every query. *)
Theorem Search_MockUser_as_Filter (db : DB) :
  Search Where MockRules MockUser db = Filter Where MockUser db
  ∧ Search Where MockRules MockUser db
    = Ok (Where "name rlike ? AND age = ?" [VString "John"; VInt 20] db).
Proof. split; vm_compute; reflexivity. Qed.

(** C5: [MultiSearch] with the rules [{name, rlike}; {age, =}] and the
    keyword ["keyword"] hands the executor the condition
    ["name rlike ? OR age = ?"] with the params ["keyword"; "keyword"]. *)
Theorem MultiSearch_keyword (db : DB) :
  MultiSearch Where MockRules "keyword" db
  = Ok (Where "name rlike ? OR age = ?" [VString "keyword"; VString "keyword"] db).
Proof. vm_compute. reflexivity. Qed.
End Examples.

(** C9: a rule whose operator is neither empty nor one of [=], [like],
    [rlike], [>], [<], [>=], [<=], [in], [date_range] is rendered to nothing:
    [parseRule] returns the conditions and the params it was given, without
    a panic; and a rule with the empty operator is rendered as the same rule
    with the operator [=], that is to [column = ?] with the raw value. *)
Theorem parseRule_unrecognized_operator (rule : Rule) (v : GoValue)
    (conditions : list string) (params : list GoValue) :
  Opt rule ≠ "" → Opt rule ∉ operators →
  parseRule rule (ValueOf v) conditions params = Ok (conditions, params)
  ∧ (∀ rfVal, parseRule (set_Opt rule "") rfVal conditions params
              = parseRule (set_Opt rule op.Eq) rfVal conditions params)
  ∧ parseRule (set_Opt rule "") (ValueOf v) conditions params
    = Ok (conditions ++ [column rule +:+ " = ?"], params ++ [v]).
Proof.
  intros Hne Hop. split; [|split].
  - rewrite parseRule_qualified. destruct rule as [n o t u].
    cbn [Opt] in Hne, Hop. unfold parseRule, set_Name, set_Opt.
    cbn [Table Name Opt UseZero negb String.eqb].
    rewrite (eqb_false_of_ne _ _ Hne). cbn [Table Name Opt UseZero].
    destruct (not_operator_eqb _ Hop) as (-> & -> & -> & -> & -> & -> & -> & -> & ->).
    reflexivity.
  - intros rfVal.
    rewrite (parseRule_qualified (set_Opt rule "")),
      (parseRule_qualified (set_Opt rule op.Eq)). reflexivity.
  - rewrite parseRule_qualified. reflexivity.
Qed.

Lemma parseRule_unrecognized_operator_witness :
  parseRule (mkRule "age" "!=" "users" false) (ValueOf (VInt 20)) ["name = ?"] [VString "John"]
  = Ok (["name = ?"], [VString "John"]).
Proof.
  apply (parseRule_unrecognized_operator (mkRule "age" "!=" "users" false)).
  - discriminate.
  - compute_done.
Defined.

(** ** Panics abort the whole transform *)

Lemma bind_panics {A B} (r : result A) (k : A → result B) :
  panics r → panics (r ≫= k).
Proof. intros [p ->]. by exists p. Qed.

Lemma bind_panics_k {A B} (r : result A) (k : A → result B) :
  (∀ a, panics (k a)) → panics (r ≫= k).
Proof. intros Hk. destruct r as [a|p]; [apply Hk | by exists p]. Qed.

(** A loop whose body panics on one of the elements, whatever the state it
    is reached in, panics: at that element or before it. *)
Lemma for_range_panics {A S} (body : S → A → result S) (l : list A) (x : A) :
  x ∈ l → (∀ s, panics (body s x)) → ∀ s, panics (for_range body l s).
Proof.
  intros Hin Hx. induction l as [|y l IH]; intros s.
  - by apply elem_of_nil in Hin.
  - cbn [for_range]. apply elem_of_cons in Hin as [<-|Hin].
    + apply bind_panics, Hx.
    + apply bind_panics_k. intros s'. by apply IH.
Qed.

Lemma Split_cons (s : string) (sep : ascii) :
  ∃ piece pieces, Split s sep = piece :: pieces.
Proof.
  destruct s as [|c s]; cbn [Split]; [by eauto|].
  destruct (Ascii.eqb c sep); [by eauto|].
  destruct (Split s sep); eauto.
Qed.

Lemma Split_no_separator (s : string) (sep : ascii) :
  contains_byte sep s = false → Split s sep = [s].
Proof.
  induction s as [|c s IH]; cbn [contains_byte Split]; [done|].
  intros [Hc Hs]%orb_false_iff. rewrite Hc, (IH Hs). done.
Qed.

Lemma Filter_tag_no_colon (rule : Rule) (entry : string) :
  contains_byte ":" entry = false →
  Filter_tag rule entry = Panic (IndexOutOfRange 1 1).
Proof.
  intros H. unfold Filter_tag. rewrite (Split_no_separator _ _ H). reflexivity.
Qed.

Lemma Filter_tag_bad_bool (rule : Rule) (entry v : string) :
  is_use_zero (entry_key entry) = true →
  entry_value entry = Some v →
  ParseBool v = None →
  Filter_tag rule entry = Panic (ParseBoolError v).
Proof.
  unfold is_use_zero, entry_key, entry_value, Filter_tag.
  destruct (Split_cons entry ":") as (k0 & rest & ->).
  destruct rest as [|v1 rest]; cbn [lookup list_lookup default fmap option_fmap option_map];
    [discriminate|].
  intros Hk [= <-] Hv. unfold id in Hk. unfold index. cbn [lookup list_lookup mbind result_bind].
  assert (String.eqb (TrimSpace k0) "opt" = false) as ->.
  { apply orb_true_iff in Hk as [->%String.eqb_eq| ->%String.eqb_eq]; reflexivity. }
  assert (String.eqb (TrimSpace k0) "table" = false) as ->.
  { apply orb_true_iff in Hk as [->%String.eqb_eq| ->%String.eqb_eq]; reflexivity. }
  rewrite Hk, Hv. reflexivity.
Qed.

Lemma Filter_field_panics (f : StructField GoValue) (entry : string) :
  annotated f = true → entry ∈ entries f →
  (∀ rule, panics (Filter_tag rule entry)) →
  ∀ st, panics (Filter_field st f).
Proof.
  unfold annotated, entries. intros Ha Hin Hp [destMap rules].
  unfold Filter_field. apply negb_true_iff in Ha. rewrite Ha.
  apply bind_panics. by apply (for_range_panics Filter_tag _ entry).
Qed.

Section Abort.
Context {DB : Type} (Where : string → list GoValue → DB → DB).

Lemma Filter_panics_of_field (dest : GoValue) (db : DB) (f : StructField GoValue) :
  Kind (struct_of dest) = Struct → f ∈ Fields (struct_of dest) →
  (∀ st, panics (Filter_field st f)) →
  panics (Filter Where dest db).
Proof.
  intros Hk Hin Hp. unfold Filter. rewrite Hk. cbn [GoKind_eqb negb].
  apply bind_panics. by apply (for_range_panics Filter_field _ f).
Qed.

(** C8: when a field of the struct is a rule source and one entry of its
    [filter] tag has the key [use_zero] or [useZero] and a value that
    [strconv.ParseBool] rejects, the transform of [Filter] panics: no
    query comes back, neither with the flag defaulted nor with the
    conditions of the other fields.  Read alone, such an entry panics
    with the error of [ParseBool]. *)
Theorem Filter_malformed_use_zero (dest : GoValue) (db : DB)
    (f : StructField GoValue) (entry v : string) :
  Kind (struct_of dest) = Struct → f ∈ Fields (struct_of dest) →
  annotated f = true → entry ∈ entries f →
  is_use_zero (entry_key entry) = true →
  entry_value entry = Some v → ParseBool v = None →
  panics (Filter Where dest db)
  ∧ (∀ db', Filter Where dest db ≠ Ok db')
  ∧ (∀ rule, Filter_tag rule entry = Panic (ParseBoolError v)).
Proof.
  intros Hk Hf Ha He Hkey Hval Hbad.
  assert (∀ rule, Filter_tag rule entry = Panic (ParseBoolError v)) as Htag
    by (intros rule; by apply Filter_tag_bad_bool).
  assert (panics (Filter Where dest db)) as [p Hp].
  { apply (Filter_panics_of_field dest db f Hk Hf).
    apply (Filter_field_panics f entry Ha He).
    intros rule. rewrite Htag. by eexists. }
  split; [by exists p|]. split; [|done].
  intros db'. rewrite Hp. discriminate.
Qed.

(** C10: when a field of the struct is a rule source and one entry of
    its [filter] tag holds no colon, the transform of [Filter] panics;
    read alone, such an entry panics on [kv[1]], index 1 of a slice of
    length 1.  So it is for the tag [opt] and for the empty entry between
    the two semicolons of [opt:=;;table:t]. *)
Theorem Filter_entry_without_colon (dest : GoValue) (db : DB)
    (f : StructField GoValue) (entry : string) :
  Kind (struct_of dest) = Struct → f ∈ Fields (struct_of dest) →
  annotated f = true → entry ∈ entries f →
  contains_byte ":" entry = false →
  panics (Filter Where dest db)
  ∧ (∀ rule, Filter_tag rule entry = Panic (IndexOutOfRange 1 1))
  ∧ (∀ v, Filter Where (VStruct [mkField "name" "opt" v]) db
          = Panic (IndexOutOfRange 1 1))
  ∧ (∀ v, Filter Where (VStruct [mkField "name" "opt:=;;table:t" v]) db
          = Panic (IndexOutOfRange 1 1)).
Proof.
  intros Hk Hf Ha He Hc. split; [|split; [|split]].
  - apply (Filter_panics_of_field dest db f Hk Hf).
    apply (Filter_field_panics f entry Ha He).
    intros rule. rewrite (Filter_tag_no_colon _ _ Hc). by eexists.
  - intros rule. by apply Filter_tag_no_colon.
  - intros v. reflexivity.
  - intros v. reflexivity.
Qed.
End Abort.

(** ** Date ranges *)

Lemma parseRule_date_range_two (rule : Rule) (s e : string)
    (conditions : list string) (params : list GoValue) :
  Opt rule = op.DateRange →
  parseRule rule (ValueOf (VStrings (Some [s; e]))) conditions params
  = Ok (conditions ++ [column rule +:+ " between ? and ?"],
        params ++ [VString (s +:+ " 00:00:00"); VString (e +:+ " 23:59:59")]).
Proof.
  intros Ho. rewrite parseRule_qualified, Ho. reflexivity.
Qed.

Lemma parseRule_date_range_other (rule : Rule) (o : option (list string))
    (conditions : list string) (params : list GoValue) :
  Opt rule = op.DateRange → length (default [] o) ≠ 2%nat →
  parseRule rule (ValueOf (VStrings o)) conditions params
  = Panic (PanicString "date_range rule requires two values").
Proof.
  intros Ho Hlen. rewrite parseRule_qualified, Ho.
  destruct o as [[|d0 [|d1 [|d2 dates]]]|]; try reflexivity.
  by destruct Hlen.
Qed.

Lemma elem_of_length_eqb {A} (x : A) (l : list A) :
  x ∈ l → (length l =? 0)%nat = false.
Proof. destruct l; [by intros ?%elem_of_nil | done]. Qed.

Lemma parseRule_read_only (rule : Rule) (v : GoValue)
    (conditions : list string) (params : list GoValue) :
  parseRule rule (ReadOnly v) conditions params
  = Panic unexported_field.
Proof. reflexivity. Qed.

Lemma parseRule_reached_panics (rule : Rule) (rv : Value) (dates : list string)
    (conditions : list string) (params : list GoValue) :
  Opt rule = op.DateRange →
  underlying rv = Some (VStrings (Some dates)) → length dates ≠ 2%nat →
  panics (parseRule rule rv conditions params).
Proof.
  intros Ho Hv Hlen. destruct rv as [|v|v]; [done| |]; injection Hv as ->.
  - rewrite (parseRule_date_range_other rule (Some dates)) by done. by eexists.
  - rewrite parseRule_read_only. by eexists.
Qed.

Section DateRange.
Context {DB : Type} (Where : string → list GoValue → DB → DB).

(** C6: a rule with the operator [date_range] on a [[]string] of the two
    dates [s] and [e] is rendered to the fragment [column between ? and ?]
    and the two params [s 00:00:00] and [e 23:59:59]; on a [[]string] of
    any other length [parseRule] panics with
    [date_range rule requires two values], and so do the transforms of
    [Search] and of [Filter] that reach such a rule: no fragment is
    produced. *)
Theorem date_range_two_values_or_panic (rule : Rule)
    (conditions : list string) (params : list GoValue) :
  Opt rule = op.DateRange →
  (∀ s e, parseRule rule (ValueOf (VStrings (Some [s; e]))) conditions params
          = Ok (conditions ++ [column rule +:+ " between ? and ?"],
                params ++ [VString (s +:+ " 00:00:00");
                           VString (e +:+ " 23:59:59")]))
  ∧ (∀ o, length (default [] o) ≠ 2%nat →
          parseRule rule (ValueOf (VStrings o)) conditions params
          = Panic (PanicString "date_range rule requires two values"))
  ∧ (∀ rules dest (db : DB) dates,
        Kind (struct_of dest) = Struct → rule ∈ rules →
        foldl Search_field ∅ (Fields (struct_of dest)) !! Name rule ≫= underlying
          = Some (VStrings (Some dates)) →
        length dates ≠ 2%nat →
        panics (Search Where rules dest db))
  ∧ (∀ dest (db : DB) destMap rules dates,
        Kind (struct_of dest) = Struct →
        for_range Filter_field (Fields (struct_of dest)) (∅, []) = Ok (destMap, rules) →
        rule ∈ rules →
        destMap !! Name rule ≫= underlying = Some (VStrings (Some dates)) →
        length dates ≠ 2%nat → dates ≠ [] ∨ UseZero rule = true →
        panics (Filter Where dest db)).
Proof.
  intros Ho. split; [|split; [|split]].
  - intros s e. by apply parseRule_date_range_two.
  - intros o Hlen. by apply parseRule_date_range_other.
  - intros rules dest db dates Hk Hin Hv Hlen.
    unfold Search. rewrite Hk, (elem_of_length_eqb _ _ Hin). cbn [GoKind_eqb negb].
    apply bind_panics. apply (for_range_panics _ _ rule Hin).
    intros st. apply lookup_underlying in Hv as (rv & Hrv & Hv).
    rewrite (Search_rule_on_value _ _ _ _ _ Hrv Hv). cbn [isZero andb].
    by apply (parseRule_reached_panics rule rv dates).
  - intros dest db destMap rules dates Hk Hext Hin Hv Hlen Hreach.
    unfold Filter. rewrite Hk, Hext. cbn [GoKind_eqb negb mbind result_bind].
    rewrite (elem_of_length_eqb _ _ Hin).
    apply bind_panics. apply (for_range_panics _ _ rule Hin).
    intros st. apply lookup_underlying in Hv as (rv & Hrv & Hv).
    rewrite (Filter_rule_on_value _ _ _ _ _ Hrv Hv).
    assert ((isZero (VStrings (Some dates)) || empty_slice (VStrings (Some dates)))
            && negb (UseZero rule) = false) as ->.
    { destruct Hreach as [Hd| ->]; [|by rewrite andb_false_r].
      destruct dates; done. }
    by apply (parseRule_reached_panics rule rv dates).
Qed.
End DateRange.

(** ** Placeholders and params *)

Lemma parseRule_step (rule : Rule) (rfVal : Value)
    (c c' : list string) (p p' : list GoValue) :
  parseRule rule rfVal c p = Ok (c', p') →
  (c' = c ∧ p' = p)
  ∨ ∃ args, c' = c ++ [fragment_of rule] ∧ p' = p ++ args ∧ rendered_ok (rule, args).
Proof.
  rewrite parseRule_qualified. unfold fragment_of, rendered_ok.
  generalize (column rule). destruct rule as [n o t u]. intros col.
  cbn [fst snd Opt]. unfold parseRule, set_Name, set_Opt.
  cbn [Table Name Opt UseZero negb String.eqb].
  destruct rfVal as [|v|v]; [discriminate| |discriminate].
  cbn [Interface mbind result_bind].
  destruct (String.eqb_spec o "") as [->|_]; cbn [Table Name Opt UseZero].
  { intros [= <- <-]. right. by exists [v]. }
  repeat match goal with
  | |- context [String.eqb o ?x] =>
      destruct (String.eqb_spec o x) as [->|_];
      [ first
        [ intros [= <- <-]; right; by eexists [_]
        | destruct v; try discriminate; cbn [assert_string mbind result_bind];
          intros [= <- <-]; right; by eexists [_]
        | idtac ] | ]
  end.
  - unfold assert_strings.
    destruct v as [| | |[[|d0 [|d1 [|d2 dates]]]|]| | |]; try discriminate.
    cbn [mbind result_bind]. intros [= <- <-]. right. by eexists [_; _].
  - intros [= <- <-]. by left.
Qed.

Lemma not_recognized (o : string) :
  o ≠ "" → o ∉ operators → recognized o = false.
Proof.
  intros Hne Hop. unfold recognized.
  by rewrite (eqb_false_of_ne _ _ Hne), bool_decide_eq_false_2.
Qed.

Lemma parseRule_not_operator (rule : Rule) (v : GoValue)
    (c : list string) (p : list GoValue) :
  Opt rule ≠ "" → Opt rule ∉ operators →
  parseRule rule (ValueOf v) c p = Ok (c, p).
Proof.
  intros Hne Hop. rewrite parseRule_qualified. destruct rule as [n o t u].
  cbn [Opt] in Hne, Hop. unfold parseRule, set_Name, set_Opt.
  cbn [Table Name Opt UseZero negb String.eqb].
  rewrite (eqb_false_of_ne _ _ Hne). cbn [Table Name Opt UseZero].
  destruct (not_operator_eqb _ Hop) as (-> & -> & -> & -> & -> & -> & -> & -> & ->).
  reflexivity.
Qed.

Lemma parseRule_Ok (rule : Rule) (v : GoValue)
    (c c' : list string) (p p' : list GoValue) :
  parseRule rule (ValueOf v) c p = Ok (c', p') →
  if recognized (Opt rule) then adds rule v c c' p p' else c' = c ∧ p' = p.
Proof.
  destruct (decide (Opt rule = "")) as [Ho|Hne].
  { rewrite parseRule_qualified. unfold adds, fragment_of, params_of. rewrite Ho.
    intros [= <- <-]. done. }
  destruct (decide (Opt rule ∈ operators)) as [Hop|Hop].
  - rewrite parseRule_qualified. unfold adds, fragment_of, params_of.
    generalize (column rule). destruct rule as [n o t u]. cbn [Opt UseZero] in *.
    intros col. unfold operators in Hop.
    repeat (apply elem_of_cons in Hop as [->|Hop];
      [first
         [ intros [= <- <-]; done
         | destruct v; try discriminate; intros [= <- <-]; done
         | destruct v as [| | |[[|d0 [|d1 [|d2 dates]]]|]| | |];
           try discriminate; intros [= <- <-]; done ]|]).
    by apply elem_of_nil in Hop.
  - rewrite (not_recognized _ Hne Hop), (parseRule_not_operator _ _ _ _ Hne Hop).
    by intros [= <- <-].
Qed.

(** One step of a loop over the rules: a rule that is not skipped and
    has a recognized operator adds its fragment and the params of the
    value it is bound to; every other rule adds nothing. *)
Lemma loop_of_step body pick (rule : Rule)
    (c c' : list string) (p p' : list GoValue) :
  loop_of body pick → body (c, p) rule = Ok (c', p') →
  match (if recognized (Opt rule) then pick rule else None) with
  | Some v => adds rule v c c' p p'
  | None => c' = c ∧ p' = p
  end.
Proof.
  assert (∀ rv v, underlying rv = Some v → parseRule rule rv c p = Ok (c', p') →
            rv = ValueOf v) as Hreadable.
  { intros [|v'|v'] v; [done| |done]. by intros [= ->]. }
  intros [destMap|destMap|rfVal].
  - unfold Filter_pick. destruct (destMap !! Name rule) as [rv|] eqn:Hrv;
      cbn [mbind option_bind].
    + destruct (underlying rv) as [v|] eqn:Hv;
        [|destruct rv; [|done..]; unfold Filter_rule; by rewrite Hrv].
      rewrite (Filter_rule_on_value _ _ _ _ _ Hrv Hv). cbn [mbind option_bind fst snd].
      destruct (_ && _).
      * intros [= <- <-]. by destruct (recognized _).
      * intros Hp. rewrite (Hreadable _ _ Hv Hp) in Hp. apply parseRule_Ok in Hp.
        by destruct (recognized _).
    + unfold Filter_rule. by rewrite Hrv.
  - unfold Search_pick. destruct (destMap !! Name rule) as [rv|] eqn:Hrv;
      cbn [mbind option_bind].
    + destruct (underlying rv) as [v|] eqn:Hv;
        [|destruct rv; [|done..]; unfold Search_rule; by rewrite Hrv].
      rewrite (Search_rule_on_value _ _ _ _ _ Hrv Hv). cbn [mbind option_bind fst snd].
      destruct (_ && _).
      * intros [= <- <-]. by destruct (recognized _).
      * intros Hp. rewrite (Hreadable _ _ Hv Hp) in Hp. apply parseRule_Ok in Hp.
        by destruct (recognized _).
    + rewrite (Search_rule_unmatched _ _ _ Hrv). intros [= <- <-].
      by destruct (recognized _).
  - unfold MultiSearch_rule, MultiSearch_pick.
    destruct rfVal as [|v|v]; [done| |done]. intros Hp%parseRule_Ok.
    by destruct (recognized _).
Qed.

Lemma rendered_rules_cons pick (rule : Rule) (rules : list Rule) :
  rendered_rules pick (rule :: rules)
  = match (if recognized (Opt rule) then pick rule else None) with
    | Some v => (rule, v) :: rendered_rules pick rules
    | None => rendered_rules pick rules
    end.
Proof.
  unfold rendered_rules. cbn [omap list_omap].
  destruct (recognized (Opt rule)); [|done]. by destruct (pick rule).
Qed.

Lemma loop_of_rendered body pick (rules : list Rule) :
  loop_of body pick →
  ∀ c0 p0 c p, for_range body rules (c0, p0) = Ok (c, p) →
  c = c0 ++ ((fragment_of ∘ fst) <$> rendered_rules pick rules)
  ∧ p = p0 ++ concat (fragment_params <$> rendered_rules pick rules)
  ∧ Forall counted (rendered_rules pick rules).
Proof.
  intros Hloop. induction rules as [|rule rules IH]; intros c0 p0 c p.
  - intros [= <- <-]. cbn. by rewrite !app_nil_r.
  - cbn [for_range]. destruct (body (c0, p0) rule) as [[c1 p1]|e] eqn:Hstep; [|discriminate].
    cbn [mbind result_bind]. intros (-> & -> & Hall)%IH.
    apply (loop_of_step _ _ _ _ _ _ _ Hloop) in Hstep.
    rewrite rendered_rules_cons.
    destruct (if recognized (Opt rule) then pick rule else None) as [v|].
    + destruct Hstep as (-> & -> & Hn & Hd).
      cbn [fmap list_fmap concat compose fst].
      rewrite <- !app_assoc. split; [done|]. split; [done|]. by constructor.
    + by destruct Hstep as [-> ->].
Qed.

Lemma placeholders_app (s t : string) :
  placeholders (s +:+ t) = (placeholders s + placeholders t)%nat.
Proof.
  induction s as [|c s IH]; [done|].
  change (String c s +:+ t) with (String c (s +:+ t)).
  cbn [placeholders]. rewrite IH. lia.
Qed.

Lemma placeholders_Join (elems : list string) (sep : string) :
  placeholders sep = 0%nat →
  placeholders (Join elems sep) = sum_list (placeholders <$> elems).
Proof.
  intros Hsep. induction elems as [|e [|e' elems] IH]; [done| |].
  - cbn. lia.
  - change (Join (e :: e' :: elems) sep) with (e +:+ sep +:+ Join (e' :: elems) sep).
    rewrite !placeholders_app, IH, Hsep. done.
Qed.

Lemma append_assoc (s t u : string) : (s +:+ t) +:+ u = s +:+ t +:+ u.
Proof.
  induction s as [|c s IH]; [done|].
  change (String c s +:+ t) with (String c (s +:+ t)).
  change (String c (s +:+ t) +:+ u) with (String c ((s +:+ t) +:+ u)).
  by rewrite IH.
Qed.

Lemma fill_app show (s t : string) (params : list GoValue) :
  fill show (s +:+ t) params
  = let '(fs, rest) := fill show s params in
    let '(ft, rest') := fill show t rest in (fs +:+ ft, rest').
Proof.
  revert params. induction s as [|c s IH]; intros params.
  - change ("" +:+ t) with t. cbn [fill]. by destruct (fill show t params).
  - change (String c s +:+ t) with (String c (s +:+ t)). cbn [fill].
    destruct (Ascii.eqb c "?"); [destruct params as [|q params]|]; rewrite IH;
      destruct (fill show s _) as [fs rest]; destruct (fill show t rest) as [ft rest'];
      try done.
    by rewrite append_assoc.
Qed.

Lemma fill_none show (s : string) (params : list GoValue) :
  placeholders s = 0%nat → fill show s params = (s, params).
Proof.
  induction s as [|c s IH]; [done|]. cbn [placeholders fill].
  destruct (Ascii.eqb c "?"); [done|]. intros H. by rewrite IH.
Qed.

Lemma fill_exact show (s : string) (own rest : list GoValue) :
  placeholders s = length own →
  fill show s (own ++ rest) = ((fill show s own).1, rest).
Proof.
  revert own. induction s as [|c s IH]; intros own.
  - destruct own; [done|discriminate].
  - cbn [placeholders fill]. destruct (Ascii.eqb c "?").
    + destruct own as [|q own]; [discriminate|]. cbn [length app]. intros [= H].
      rewrite (IH _ H). by destruct (fill show s own).
    + intros H. rewrite (IH _ H). by destruct (fill show s own).
Qed.

Lemma fill_Join show (sep : string) (rendered : list (Rule * GoValue))
    (rest : list GoValue) :
  placeholders sep = 0%nat →
  Forall (λ rv, placeholders (fragment_of rv.1) = length (fragment_params rv)) rendered →
  fill show (Join ((fragment_of ∘ fst) <$> rendered) sep)
    (concat (fragment_params <$> rendered) ++ rest)
  = (Join (filled show <$> rendered) sep, rest).
Proof.
  intros Hsep Hall. induction Hall as [|rv [|rv' rendered] Hrv Hall IH]; [done| |].
  - cbn [fmap list_fmap concat Join compose]. rewrite app_nil_r.
    by rewrite (fill_exact _ _ _ _ Hrv).
  - change (Join ((fragment_of ∘ fst) <$> rv :: rv' :: rendered) sep)
      with (fragment_of rv.1 +:+ sep +:+ Join ((fragment_of ∘ fst) <$> rv' :: rendered) sep).
    change (Join (filled show <$> rv :: rv' :: rendered) sep)
      with (filled show rv +:+ sep +:+ Join (filled show <$> rv' :: rendered) sep).
    change (concat (fragment_params <$> rv :: rv' :: rendered))
      with (fragment_params rv ++ concat (fragment_params <$> rv' :: rendered)).
    rewrite <- app_assoc, fill_app, (fill_exact _ _ _ _ Hrv).
    rewrite fill_app, (fill_none _ _ _ Hsep), IH. done.
Qed.

Lemma sublist_rendered_rules pick (rules : list Rule) :
  sublist (rendered_rules pick rules).*1 rules.
Proof.
  induction rules as [|rule rules IH]; [done|].
  rewrite rendered_rules_cons.
  destruct (if recognized (Opt rule) then pick rule else None);
    cbn [fmap list_fmap fst]; first [by apply sublist_skip | by apply sublist_cons].
Qed.

Lemma Forall_of_sublist {A} (P : A → Prop) (l k : list A) :
  sublist l k → Forall P k → Forall P l.
Proof.
  induction 1 as [|x l k _ IH|x l k _ IH]; [done| |]; intros [Hx Hk]%Forall_cons.
  - constructor; auto.
  - auto.
Qed.

(** C2: in [Filter], [Search] and [MultiSearch], when no column of the
    rules holds a [?] of its own, the loop over the rules ends with params
    that follow the placeholders.  The fragments are those of the rules
    that are not skipped and have a recognized operator, in the order of
    the rules; the params are, in the same order, the params of each of
    these rules on the value it is bound to; a rule has as many params as
    its fragment has placeholders, two for a date range and one for every
    other operator.  So the joined condition, with [AND] or with [OR], has
    as many placeholders as there are params, and filling its
    placeholders from left to right with the params fills every fragment
    with the params of its own rule and uses all of them. *)
Theorem params_follow_placeholders body pick (rules : list Rule)
    (conditions : list string) (params : list GoValue) :
  loop_of body pick →
  Forall (λ rule, placeholders (column rule) = 0%nat) rules →
  for_range body rules ([], []) = Ok (conditions, params) →
  conditions = (fragment_of ∘ fst) <$> rendered_rules pick rules
  ∧ params = concat (fragment_params <$> rendered_rules pick rules)
  ∧ Forall (λ rv,
       length (fragment_params rv) = placeholders (fragment_of rv.1)
       ∧ length (fragment_params rv)
         = (if String.eqb (Opt rv.1) op.DateRange then 2 else 1)%nat)
      (rendered_rules pick rules)
  ∧ ∀ sep, sep = " AND " ∨ sep = " OR " →
      placeholders (Join conditions sep) = length params
      ∧ ∀ show, fill show (Join conditions sep) params
                = (Join (filled show <$> rendered_rules pick rules) sep, []).
Proof.
  intros Hloop Hcols Hrun.
  destruct (loop_of_rendered body pick rules Hloop _ _ _ _ Hrun) as (-> & -> & Hcount).
  cbn [app].
  assert (Forall (λ rv, length (fragment_params rv) = placeholders (fragment_of rv.1)
                        ∧ length (fragment_params rv)
                          = (if String.eqb (Opt rv.1) op.DateRange then 2 else 1)%nat)
            (rendered_rules pick rules)) as Hfrag.
  { pose proof (Forall_of_sublist _ _ _ (sublist_rendered_rules pick rules) Hcols) as Hc.
    apply Forall_fmap in Hc. apply Forall_forall. intros rv Hin.
    pose proof (proj1 (Forall_forall _ _) Hcount rv Hin) as [Hn Hd].
    pose proof (proj1 (Forall_forall _ _) Hc rv Hin) as Hcol. cbn in Hcol.
    split; [|done]. unfold fragment_of. by rewrite placeholders_app, Hcol. }
  assert (Forall (λ rv, placeholders (fragment_of rv.1) = length (fragment_params rv))
            (rendered_rules pick rules)) as Hfill
    by (eapply Forall_impl; [exact Hfrag|]; by intros rv [-> _]).
  repeat split; try done.
  - assert (placeholders sep = 0%nat) as Hsep by (by destruct H as [-> | ->]).
    pose proof (fill_Join (λ _, "") sep _ [] Hsep Hfill) as Hf.
    rewrite placeholders_Join by done. clear -Hfill.
    induction Hfill as [|rv rendered Hrv _ IH]; [done|].
    cbn [fmap list_fmap concat sum_list sum_list_with compose].
    rewrite length_app, <- IH, <- Hrv. done.
  - intros show.
    assert (placeholders sep = 0%nat) as Hsep by (by destruct H as [-> | ->]).
    pose proof (fill_Join show sep _ [] Hsep Hfill) as Hf.
    by rewrite app_nil_r in Hf.
Qed.

(** The claim without the condition on the columns fails: a rule on the
    column [a?] is rendered to the fragment [a? = ?], two placeholders for
    the executor, with one param. *)
Lemma placeholder_in_column :
  ¬ (∀ (rules : list Rule) (rfVal : Value) conditions params,
       for_range (MultiSearch_rule rfVal) rules ([], []) = Ok (conditions, params) →
       placeholders (Join conditions " OR ") = length params).
Proof.
  intros H.
  specialize (H [mkRule "a?" "=" "" false] (ValueOf (VString "k"))
                ["a? = ?"] [VString "k"] eq_refl).
  discriminate H.
Qed.

(** ** Extraction binds every rule *)

Lemma Filter_tag_Name (rule rule' : Rule) (entry : string) :
  Filter_tag rule entry = Ok rule' → Name rule' = Name rule.
Proof.
  unfold Filter_tag. destruct (index _ 0) as [k0|]; [|discriminate].
  cbn [mbind result_bind]. destruct (index _ 1) as [v1|]; [|discriminate].
  cbn [mbind result_bind].
  repeat match goal with
  | |- context [if ?b then _ else _] => destruct b
  | |- context [match ?o with Some _ => _ | None => _ end] => destruct o
  end; intros [= <-]; reflexivity.
Qed.

Lemma for_range_Filter_tag_Name (filterTags : list string) (rule rule' : Rule) :
  for_range Filter_tag filterTags rule = Ok rule' → Name rule' = Name rule.
Proof.
  revert rule. induction filterTags as [|entry filterTags IH]; intros rule.
  - by intros [= <-].
  - cbn [for_range]. destruct (Filter_tag rule entry) as [rule1|] eqn:E; [|discriminate].
    cbn [mbind result_bind]. intros ->%IH. by apply Filter_tag_Name in E.
Qed.

Lemma Filter_field_bound st f st' :
  Filter_field st f = Ok st' → all_bound st → all_bound st'.
Proof.
  destruct st as [destMap rules]. unfold Filter_field.
  destruct (_ || _); [by intros [= <-]|].
  destruct (for_range _ _ _) as [rule|] eqn:E; [|discriminate].
  cbn [mbind result_bind]. intros [= <-] Hb rule' [Hin|Hin%list_elem_of_singleton]%elem_of_app;
    cbn [fst snd Name] in *.
  - destruct (decide (TrimSpace (removeOmitempty (Tag_json f)) = Name rule')) as [->|Hne].
    + rewrite lookup_insert_eq. by eexists.
    + rewrite lookup_insert_ne by done. by apply Hb.
  - subst rule'. apply for_range_Filter_tag_Name in E. cbn [Name] in E.
    rewrite E, lookup_insert_eq. by eexists.
Qed.

(** The rules that [Filter] extracts are all bound in [destMap]: its
    [IsZero] and [Interface] are never called on the zero Value. *)
Lemma Filter_rules_bound (fields : list (StructField GoValue))
    (destMap : gmap string Value) (rules : list Rule) :
  for_range Filter_field fields (∅, []) = Ok (destMap, rules) →
  ∀ rule, rule ∈ rules → is_Some (destMap !! Name rule).
Proof.
  assert (∀ st st', for_range Filter_field fields st = Ok st' →
                    all_bound st → all_bound st') as H.
  { induction fields as [|f fields IH]; intros st st'.
    - by intros [= <-].
    - cbn [for_range]. destruct (Filter_field st f) as [st1|] eqn:E; [|discriminate].
      cbn [mbind result_bind]. intros Hrest Hb.
      apply (IH _ _ Hrest). by apply (Filter_field_bound st f). }
  intros Hext. apply (H _ _ Hext). by intros rule ?%elem_of_nil.
Qed.

(** ** The skip policies *)

Section Skip.
Context {DB : Type} (Where : string → list GoValue → DB → DB).

(** C7: for a rule bound to a field of value [v], without [UseZero] the loop of
    [Filter] drops the rule when [v] is the zero value or an empty slice
    and renders it otherwise, and the loop of [Search] drops it when [v]
    is the zero value and renders it otherwise; with [UseZero] both
    render it.  The two differ on the empty slices that are not nil and
    on nothing else: on a field [[]int{}] tagged [opt:in], [Filter]
    produces no condition and [Search] the condition [ids in (?)]. *)
Theorem skip_policies (destMap : gmap string Value) (rule : Rule)
    (rv : Value) (v : GoValue) (st : list string * list GoValue) :
  destMap !! Name rule = Some rv → underlying rv = Some v →
  (UseZero rule = false →
     Filter_rule destMap st rule
     = (if isZero v || empty_slice v then Ok st
        else parseRule rule rv st.1 st.2)
     ∧ Search_rule destMap st rule
       = (if isZero v then Ok st else parseRule rule rv st.1 st.2))
  ∧ (UseZero rule = true →
     Filter_rule destMap st rule = parseRule rule rv st.1 st.2
     ∧ Search_rule destMap st rule = parseRule rule rv st.1 st.2)
  ∧ (isZero v || empty_slice v ≠ isZero v
     ↔ v = VStrings (Some []) ∨ v = VInts (Some []))
  ∧ (∀ db : DB,
       Filter Where (VStruct [mkField "ids" "opt:in" (VInts (Some []))]) db
       = Ok (Where "" [] db)
       ∧ Search Where [mkRule "ids" "in" "" false]
           (VStruct [mkField "ids" "opt:in" (VInts (Some []))]) db
         = Ok (Where "ids in (?)" [VInts (Some [])] db)).
Proof.
  intros Hrv Hv.
  rewrite (Filter_rule_on_value _ _ _ _ _ Hrv Hv), (Search_rule_on_value _ _ _ _ _ Hrv Hv).
  split; [|split; [|split]].
  - intros ->. cbn [negb]. by rewrite !andb_true_r.
  - intros ->. cbn [negb]. by rewrite !andb_false_r.
  - split.
    + destruct v as [b|n|s|[[|x l]|]|[[|x l]|]|[?|]|fields]; cbn;
        try (rewrite ?orb_false_r; intros H; by destruct H); auto.
    + intros [-> | ->]; cbn; discriminate.
  - intros db. split; reflexivity.
Qed.

(** C1: when [Filter] extracts at least one rule and drops all of them
    (no rule has [UseZero], every bound value is the zero value or an
    empty slice), no fragment and no param is produced: the transform
    calls [Where] with the empty condition and no param, and on an
    executor that takes this call for no condition, as gorm's does, it
    returns the query it was given.  So does [Search], when all its
    rules are dropped (the name is unmatched, or the value is the zero
    value and the rule has no [UseZero]). *)
Theorem all_rules_dropped (dest : GoValue) (db : DB) :
  (∀ db, Where "" [] db = db) →
  Kind (struct_of dest) = Struct →
  (∀ destMap rules,
      for_range Filter_field (Fields (struct_of dest)) (∅, []) = Ok (destMap, rules) →
      rules ≠ [] →
      Forall (λ rule, UseZero rule = false
                      ∧ ∃ v, destMap !! Name rule ≫= underlying = Some v
                             ∧ isZero v || empty_slice v = true) rules →
      Filter Where dest db = Ok (Where "" [] db)
      ∧ Filter Where dest db = Ok db)
  ∧ (∀ rules,
      rules ≠ [] →
      Forall (λ rule,
                match foldl Search_field ∅ (Fields (struct_of dest)) !! Name rule with
                | Some rv => UseZero rule = false ∧ IsZero rv = Ok true
                | None => True
                end) rules →
      Search Where rules dest db = Ok (Where "" [] db)
      ∧ Search Where rules dest db = Ok db).
Proof.
  intros Hwhere Hk. split.
  - intros destMap rules Hext Hne Hall.
    assert (Filter Where dest db = Ok (Where "" [] db)) as HF.
    { unfold Filter. rewrite Hk, Hext. cbn [GoKind_eqb negb mbind result_bind].
      assert ((length rules =? 0)%nat = false) as -> by (by destruct rules).
      assert (∀ st, for_range (Filter_rule destMap) rules st = Ok st) as ->; [|done].
      clear Hne Hext. induction Hall as [|rule rules (Hu & v & Hv & Hz) _ IH];
        intros [c p]; [done|].
      apply lookup_underlying in Hv as (rv & Hrv & Hv).
      cbn [for_range]. rewrite (Filter_rule_on_value _ _ _ _ _ Hrv Hv), Hu, Hz.
      cbn [andb negb mbind result_bind]. apply IH. }
    split; [done|]. by rewrite HF, Hwhere.
  - intros rules Hne Hall.
    assert (Search Where rules dest db = Ok (Where "" [] db)) as HS.
    { unfold Search. rewrite Hk. cbn [GoKind_eqb negb].
      assert ((length rules =? 0)%nat = false) as -> by (by destruct rules).
      assert (∀ st, for_range (Search_rule (foldl Search_field ∅ (Fields (struct_of dest))))
                      rules st = Ok st) as ->; [|done].
      clear Hne. induction Hall as [|rule rules Hrule _ IH]; intros [c p]; [done|].
      cbn [for_range].
      destruct (_ !! Name rule) as [rv|] eqn:Hrv.
      - destruct Hrule as [Hu Hz].
        assert (∃ v, underlying rv = Some v ∧ isZero v = true) as (v & Hv & Hzv)
          by (destruct rv; simplify_eq/=; eauto).
        rewrite (Search_rule_on_value _ _ _ _ _ Hrv Hv), Hu, Hzv.
        cbn [andb negb mbind result_bind]. apply IH.
      - rewrite (Search_rule_unmatched _ _ _ Hrv).
        cbn [mbind result_bind]. apply IH. }
    split; [done|]. by rewrite HS, Hwhere.
Qed.
End Skip.

(** ** [removeOmitempty] *)

Lemma append_String (c : ascii) (s t : string) :
  String c s +:+ t = String c (s +:+ t).
Proof. reflexivity. Qed.

Lemma Index_lower (s substr : string) : -1 ≤ Index s substr.
Proof.
  induction s as [|c s IH]; cbn [Index].
  - destruct (isPrefix substr ""); lia.
  - destruct (isPrefix substr (String c s)); [lia|].
    destruct (Index s substr =? -1) eqn:E; lia.
Qed.

Lemma isPrefix_comma (c : ascii) (s substr : string) :
  Ascii.eqb c "," = false → isPrefix (String "," substr) (String c s) = false.
Proof.
  intros Hc. unfold isPrefix. cbn [String.prefix].
  destruct (ascii_dec "," c) as [<-|_]; [discriminate|reflexivity].
Qed.

(** Over a text without comma, the search for a marker that starts with a
    comma goes on behind it. *)
Lemma Index_skip (name s substr : string) :
  contains_byte "," name = false →
  Index (name +:+ s) (String "," substr)
  = if Index s (String "," substr) =? -1 then -1
    else Z.of_nat (String.length name) + Index s (String "," substr).
Proof.
  intros Hname. induction name as [|c name IH].
  - change ("" +:+ s) with s. cbn [String.length].
    destruct (Index s _ =? -1) eqn:E; [by apply Z.eqb_eq in E|lia].
  - cbn [contains_byte] in Hname. apply orb_false_iff in Hname as [Hc Hname].
    rewrite append_String. cbn [Index]. rewrite (isPrefix_comma _ _ _ Hc), (IH Hname).
    destruct (Index s _ =? -1) eqn:E; [reflexivity|].
    pose proof (Index_lower s (String "," substr)). apply Z.eqb_neq in E.
    destruct (_ =? -1) eqn:E'; [apply Z.eqb_eq in E'; lia|].
    cbn [String.length]. lia.
Qed.

Lemma Index_here (t substr : string) :
  Index (substr +:+ t) substr = 0.
Proof.
  assert (isPrefix substr (substr +:+ t) = true) as H.
  { unfold isPrefix. induction substr as [|c substr IH]; [by destruct t|].
    rewrite append_String. cbn [String.prefix]. by destruct (ascii_dec c c). }
  destruct (substr +:+ t); cbn [Index]; by rewrite H.
Qed.

Lemma slice_to_app (s t : string) (k : nat) :
  slice_to (s +:+ t) (String.length s + k) = s +:+ slice_to t k.
Proof.
  induction s as [|c s IH]; [reflexivity|].
  rewrite !append_String. cbn [String.length Nat.add slice_to]. by rewrite IH.
Qed.

Lemma slice_to_0 (s : string) : slice_to s 0 = "".
Proof. by destruct s. Qed.

Lemma append_empty_r (s : string) : s +:+ "" = s.
Proof. induction s as [|c s IH]; [done|]. by rewrite append_String, IH. Qed.

Lemma slice_to_length (s t : string) :
  slice_to (s +:+ t) (String.length s) = s.
Proof.
  rewrite <- (Nat.add_0_r (String.length s)), slice_to_app, slice_to_0.
  apply append_empty_r.
Qed.

Lemma removeOmitempty_at (tag : string) (n : nat) :
  Index tag ",omitempty" = Z.of_nat n → removeOmitempty tag = slice_to tag n.
Proof.
  intros H. unfold removeOmitempty. rewrite H.
  destruct (Z.of_nat n =? -1) eqn:E; [apply Z.eqb_eq in E; lia|].
  cbn [negb]. by rewrite Nat2Z.id.
Qed.

Lemma removeOmitempty_at_optional (tag : string) (n : nat) :
  Index tag ",omitempty" = -1 → Index tag ",optional" = Z.of_nat n →
  removeOmitempty tag = slice_to tag n.
Proof.
  intros H1 H2. unfold removeOmitempty. rewrite H1, H2. cbn [Z.eqb negb].
  destruct (Z.of_nat n =? -1) eqn:E; [apply Z.eqb_eq in E; lia|].
  cbn [negb]. by rewrite Nat2Z.id.
Qed.

Lemma Index_optional_no_omitempty (rest : string) :
  Index rest ",omitempty" = -1 →
  Index (",optional" +:+ rest) ",omitempty" = -1.
Proof.
  intros Hrest.
  change (",optional" +:+ rest) with (String "," ("optional" +:+ rest)).
  cbn [Index]. change (isPrefix ",omitempty" (String "," ("optional" +:+ rest)))
    with false. cbn match.
  rewrite (Index_skip "optional" rest "omitempty" eq_refl), Hrest. reflexivity.
Qed.

(** X1: [removeOmitempty] cuts a tag at its modifier.  For a name without
    comma, [name,omitempty...] gives [name], whatever follows the
    modifier; [name,optional...] gives [name] when no [,omitempty] follows;
    and a name alone comes back as it is. *)
Theorem removeOmitempty_modifier (name rest : string) :
  contains_byte "," name = false →
  removeOmitempty (name +:+ ",omitempty" +:+ rest) = name
  ∧ (Index rest ",omitempty" = -1 →
     removeOmitempty (name +:+ ",optional" +:+ rest) = name)
  ∧ removeOmitempty name = name.
Proof.
  intros Hname. split; [|split].
  - rewrite (removeOmitempty_at _ (String.length name)); [apply slice_to_length|].
    rewrite (Index_skip _ _ _ Hname), (Index_here rest). cbn [Z.eqb]. lia.
  - intros Hrest.
    rewrite (removeOmitempty_at_optional _ (String.length name)); [apply slice_to_length| |].
    + by rewrite (Index_skip name _ "omitempty" Hname), Index_optional_no_omitempty.
    + rewrite (Index_skip _ _ _ Hname), (Index_here rest). cbn [Z.eqb]. lia.
  - unfold removeOmitempty.
    pose proof (Index_skip name "" "omitempty" Hname) as H1.
    pose proof (Index_skip name "" "optional" Hname) as H2.
    rewrite append_empty_r in H1, H2. rewrite H1, H2. reflexivity.
Qed.

Lemma isPrefix_slice_to (substr s : string) (n : nat) :
  isPrefix substr (slice_to s n) = true → isPrefix substr s = true.
Proof.
  unfold isPrefix. revert s n.
  induction substr as [|a substr IH]; intros [|b s] [|n]; cbn; try done.
  destruct (ascii_dec a b); [|done]. apply IH.
Qed.

Lemma isPrefix_slice_to_self (s : string) (n : nat) :
  isPrefix (slice_to s n) s = true.
Proof.
  unfold isPrefix. revert n. induction s as [|c s IH]; intros [|n]; cbn; try done.
  destruct (ascii_dec c c); [apply IH|done].
Qed.

Lemma Index_slice_to (substr s : string) (n : nat) :
  substr ≠ "" → Index (slice_to s n) substr ≠ -1 →
  0 ≤ Index s substr < Z.of_nat n.
Proof.
  intros Hne. assert (isPrefix substr "" = false) as Hemp by (by destruct substr).
  revert n. induction s as [|c s IH]; intros n.
  - destruct n; cbn [slice_to Index]; rewrite Hemp; done.
  - destruct n as [|n]; [cbn [slice_to Index]; rewrite Hemp; done|].
    cbn [slice_to]. intros H. cbn [Index] in H |- *.
    destruct (isPrefix substr (String c (slice_to s n))) eqn:E.
    + rewrite (isPrefix_slice_to substr (String c s) (S n) E). lia.
    + destruct (Index (slice_to s n) substr =? -1) eqn:E'; [done|].
      apply Z.eqb_neq in E'. specialize (IH n E').
      destruct (isPrefix substr (String c s)); [lia|].
      destruct (Index s substr =? -1) eqn:E''; [apply Z.eqb_eq in E''; lia|lia].
Qed.

(** X2: what [removeOmitempty] returns is the beginning of the tag and
    holds no [,omitempty]. *)
Theorem removeOmitempty_prefix (tag : string) :
  isPrefix (removeOmitempty tag) tag = true
  ∧ Index (removeOmitempty tag) ",omitempty" = -1.
Proof.
  unfold removeOmitempty.
  pose proof (Index_lower tag ",omitempty") as Hlow.
  destruct (Index tag ",omitempty" =? -1) eqn:E; cbn [negb].
  - apply Z.eqb_eq in E.
    assert (∀ n, Index (slice_to tag n) ",omitempty" = -1) as Hslice.
    { intros n. destruct (decide (Index (slice_to tag n) ",omitempty" = -1)) as [|Hn]; [done|].
      apply Index_slice_to in Hn; [lia|done]. }
    destruct (Index tag ",optional" =? -1); cbn [negb].
    + split; [|done]. rewrite <- (isPrefix_slice_to_self tag (String.length tag)).
      f_equal. clear. induction tag as [|c tag IH]; cbn; congruence.
    + split; [apply isPrefix_slice_to_self|apply Hslice].
  - apply Z.eqb_neq in E. split; [apply isPrefix_slice_to_self|].
    destruct (decide (Index (slice_to tag (Z.to_nat (Index tag ",omitempty"))) ",omitempty" = -1))
      as [|Hn]; [done|].
    apply Index_slice_to in Hn; [lia|done].
Qed.

Lemma Index_String (c : ascii) (s substr : string) :
  isPrefix substr (String c s) = false →
  Index (String c s) substr
  = if Index s substr =? -1 then -1 else Index s substr + 1.
Proof. intros H. cbn [Index]. by rewrite H. Qed.

Lemma Index_optional_omitempty (rest : string) :
  Index (",optional,omitempty" +:+ rest) ",omitempty" = 9.
Proof.
  change (",optional,omitempty" +:+ rest)
    with (String "," ("optional" +:+ ",omitempty" +:+ rest)).
  rewrite Index_String by reflexivity.
  rewrite (Index_skip "optional" _ "omitempty" eq_refl), (Index_here rest).
  vm_compute. reflexivity.
Qed.

(** X3: [,omitempty] goes before [,optional]: a tag [name,optional,omitempty...]
    is cut at [,omitempty] and keeps its [,optional]. *)
Theorem removeOmitempty_precedence (name rest : string) :
  contains_byte "," name = false →
  removeOmitempty (name +:+ ",optional,omitempty" +:+ rest) = name +:+ ",optional".
Proof.
  intros Hname.
  rewrite (removeOmitempty_at _ (String.length name + 9)).
  - by rewrite slice_to_app.
  - rewrite (Index_skip _ _ _ Hname), Index_optional_omitempty.
    change (9 =? -1) with false. cbv iota. lia.
Qed.

(** ** More on [parseRule] *)

Lemma parseRule_like_string (rule : Rule) (s : string)
    (conditions : list string) (params : list GoValue) :
  Opt rule = op.Like →
  parseRule rule (ValueOf (VString s)) conditions params
  = Ok (conditions ++ [column rule +:+ " like ?"],
        params ++ [VString ("%" +:+ s +:+ "%")]).
Proof. intros Ho. rewrite parseRule_qualified, Ho. reflexivity. Qed.

Lemma parseRule_date_range_not_strings (rule : Rule) (v : GoValue)
    (conditions : list string) (params : list GoValue) :
  Opt rule = op.DateRange → (∀ o, v ≠ VStrings o) →
  parseRule rule (ValueOf v) conditions params
  = Panic (InterfaceConversion v "[]string").
Proof.
  intros Ho Hv. rewrite parseRule_qualified, Ho.
  destruct v; try reflexivity. by destruct (Hv o).
Qed.

(** X4: with one of the operators [=], [rlike], [>], [<], [>=], [<=], [in],
    or with none, [parseRule] adds the fragment of the rule, its column
    (qualified by the table, when there is one) and the template of the
    operator, and the bound value as it is, of whatever type; what was
    there before stays in front. *)
Theorem parseRule_raw_value (rule : Rule) (v : GoValue)
    (conditions : list string) (params : list GoValue) :
  Opt rule ∈ raw_operators →
  parseRule rule (ValueOf v) conditions params
  = Ok (conditions ++ [fragment_of rule], params ++ [v]).
Proof.
  intros Ho. rewrite parseRule_qualified. unfold fragment_of.
  generalize (column rule). destruct rule as [n o t u]. cbn [Opt UseZero] in *.
  intros col. unfold raw_operators in Ho.
  repeat (apply elem_of_cons in Ho as [->|Ho]; [reflexivity|]).
  by apply elem_of_nil in Ho.
Qed.

(** X5: with the operator [like], a string [s] is rendered to
    [column like ?] with the param [%s%]; a value of any other type makes
    [parseRule] panic on the type assertion [value.(string)]. *)
Theorem parseRule_like (rule : Rule)
    (conditions : list string) (params : list GoValue) :
  Opt rule = op.Like →
  (∀ s, parseRule rule (ValueOf (VString s)) conditions params
        = Ok (conditions ++ [column rule +:+ " like ?"],
              params ++ [VString ("%" +:+ s +:+ "%")]))
  ∧ (∀ v, (∀ s, v ≠ VString s) →
          parseRule rule (ValueOf v) conditions params
          = Panic (InterfaceConversion v "string")).
Proof.
  intros Ho. split.
  - intros s. by apply parseRule_like_string.
  - intros v Hv. rewrite parseRule_qualified, Ho.
    destruct v; try reflexivity. by destruct (Hv s).
Qed.

(** X6: [parseRule] only adds at the end: when it returns, the conditions
    and the params it was given are the beginning of those it returns,
    and it has added no fragment and no param, or one fragment and one or
    two params. *)
Theorem parseRule_appends (rule : Rule) (rfVal : Value)
    (c c' : list string) (p p' : list GoValue) :
  parseRule rule rfVal c p = Ok (c', p') →
  ∃ frags args, c' = c ++ frags ∧ p' = p ++ args
    ∧ ((frags = [] ∧ args = [])
       ∨ (length frags = 1 ∧ 1 ≤ length args ≤ 2))%nat.
Proof.
  intros [[-> ->]|(args & -> & -> & _ & _ & Hlen)]%parseRule_step.
  - exists [], []. rewrite !app_nil_r. auto.
  - exists [fragment_of rule], args. repeat split; try done. right.
    cbn [fst snd length] in *. destruct (String.eqb _ _); lia.
Qed.

(** ** Loops *)

Lemma for_range_app {A S} (body : S → A → result S) (l1 l2 : list A) (s : S) :
  for_range body (l1 ++ l2) s = for_range body l1 s ≫= for_range body l2.
Proof.
  revert s. induction l1 as [|x l1 IH]; intros s; [done|].
  cbn [app for_range]. destruct (body s x) as [s'|p]; [apply IH|done].
Qed.

Lemma for_range_ext {A S} (f g : S → A → result S) (l : list A) (s : S) :
  (∀ x, x ∈ l → ∀ s, f s x = g s x) → for_range f l s = for_range g l s.
Proof.
  revert s. induction l as [|x l IH]; intros s H; [done|].
  cbn [for_range]. rewrite (H x) by apply list_elem_of_here.
  destruct (g s x) as [s'|p]; [|done]. apply IH.
  intros y Hy. apply H. by apply list_elem_of_further.
Qed.

Lemma for_range_Panic {A S} (body : S → A → result S) (l : list A) (s : S) (p : panic) :
  for_range body l s = Panic p → ∃ x s', x ∈ l ∧ body s' x = Panic p.
Proof.
  revert s. induction l as [|x l IH]; intros s; [done|].
  cbn [for_range]. destruct (body s x) as [s'|e] eqn:E.
  - intros (y & s'' & Hy & Hp)%IH. exists y, s''. split; [by apply list_elem_of_further|done].
  - intros [= <-]. exists x, s. split; [apply list_elem_of_here|done].
Qed.

(** ** What [Filter] extracts *)

Lemma Filter_field_Ok st f st' :
  Filter_field st f = Ok st' →
  st'.1 = (if annotated f then <[jsonName f := Field f]> st.1 else st.1)
  ∧ Name <$> st'.2 = (Name <$> st.2) ++ (if annotated f then [jsonName f] else []).
Proof.
  destruct st as [destMap rules]. unfold Filter_field, annotated.
  destruct (_ || _); cbn [negb].
  - intros [= <-]. cbn [fst snd]. by rewrite app_nil_r.
  - destruct (for_range _ _ _) as [rule|] eqn:E; [|discriminate].
    cbn [mbind result_bind]. intros [= <-]. cbn [fst snd Name]. split; [done|].
    apply for_range_Filter_tag_Name in E. cbn [Name] in E.
    rewrite fmap_app. cbn [fmap list_fmap]. by rewrite E.
Qed.

(** X7: the rules that [Filter] extracts are those of the annotated
    fields, one for each, in the order of the fields, each named by the
    [json] name of its field. *)
Theorem extraction_names (fields : list (StructField GoValue))
    (destMap : gmap string Value) (rules : list Rule) :
  for_range Filter_field fields (∅, []) = Ok (destMap, rules) →
  Name <$> rules = jsonName <$> List.filter annotated fields.
Proof.
  assert (∀ st st', for_range Filter_field fields st = Ok st' →
            Name <$> st'.2
            = (Name <$> st.2) ++ (jsonName <$> List.filter annotated fields)) as H.
  { induction fields as [|f fields IH]; intros st st'.
    - intros [= <-]. by rewrite app_nil_r.
    - cbn [for_range]. destruct (Filter_field st f) as [st1|] eqn:E; [|discriminate].
      cbn [mbind result_bind]. intros ->%IH.
      apply Filter_field_Ok in E as [_ ->]. cbn [List.filter].
      destruct (annotated f); cbn [fmap list_fmap]; by rewrite <- app_assoc. }
  intros Hext. by apply H in Hext.
Qed.

(** X8: the value that [Filter] binds to a name is the value of the last
    annotated field of that name: when two annotated fields share a
    [json] name, the rules of both are rendered on the value of the
    second. *)
Theorem extraction_binds_last (fields : list (StructField GoValue))
    (destMap : gmap string Value) (rules : list Rule) (k : string) :
  for_range Filter_field fields (∅, []) = Ok (destMap, rules) →
  destMap !! k
  = Field <$> last (List.filter (λ f, annotated f && String.eqb (jsonName f) k) fields).
Proof.
  assert (∀ st st', for_range Filter_field fields st = Ok st' →
            st'.1 !! k
            = match last (List.filter (λ f, annotated f && String.eqb (jsonName f) k) fields) with
              | Some f => Some (Field f)
              | None => st.1 !! k
              end) as H.
  { induction fields as [|f fields IH]; intros st st'.
    - by intros [= <-].
    - cbn [for_range]. destruct (Filter_field st f) as [st1|] eqn:E; [|discriminate].
      cbn [mbind result_bind]. intros ->%IH.
      apply Filter_field_Ok in E as [-> _]. cbn [List.filter].
      destruct (annotated f); cbn [andb]; [|done].
      destruct (String.eqb_spec (jsonName f) k) as [->|Hne].
      + rewrite last_cons, lookup_insert_eq. by destruct (last _).
      + by rewrite lookup_insert_ne. }
  intros Hext. apply H in Hext. cbn [fst] in Hext. rewrite Hext, lookup_empty.
  by destruct (last _).
Qed.

(** X9: the value that [Search] binds to a name is the value of the last
    field of that [json] name, annotated or not; a field without a [json]
    name is bound to nothing, so no rule can refer to it. *)
Theorem Search_binds_last (fields : list (StructField GoValue)) (k : string) :
  foldl Search_field ∅ fields !! k
  = if String.eqb k "" then None
    else Field <$> last (List.filter (λ f, String.eqb (jsonName f) k) fields).
Proof.
  assert (∀ m0 : gmap string Value,
            foldl Search_field m0 fields !! k
            = if String.eqb k "" then m0 !! k
              else match last (List.filter (λ f, String.eqb (jsonName f) k) fields) with
                   | Some f => Some (Field f)
                   | None => m0 !! k
                   end) as H.
  { induction fields as [|f fields IH]; intros m0.
    - cbn. by destruct (String.eqb k "").
    - cbn [foldl List.filter]. rewrite IH. unfold Search_field. fold (jsonName f).
      destruct (String.eqb k "") eqn:Hk.
      + apply String.eqb_eq in Hk.
        destruct (String.eqb_spec (jsonName f) "") as [_|Hne]; cbn [negb]; [done|].
        rewrite lookup_insert_ne; [done|congruence].
      + apply String.eqb_neq in Hk.
        destruct (String.eqb_spec (jsonName f) k) as [Heq|Hne].
        * rewrite Heq, (eqb_false_of_ne _ _ Hk). cbn [negb].
          rewrite last_cons, lookup_insert_eq. by destruct (last _).
        * destruct (String.eqb (jsonName f) ""); cbn [negb]; [done|].
          by rewrite lookup_insert_ne. }
  rewrite H, lookup_empty. destruct (String.eqb k ""); [done|]. by destruct (last _).
Qed.

Lemma Filter_tag_Ok (rule rule' : Rule) (entry : string) :
  Filter_tag rule entry = Ok rule' →
  rule' = mkRule (Name rule)
            (default (Opt rule) (entry_opt entry))
            (default (Table rule) (entry_table entry))
            (default (UseZero rule) (entry_use_zero entry)).
Proof.
  unfold Filter_tag, entry_opt, entry_table, entry_use_zero, entry_key, entry_value.
  destruct (Split_cons entry ":") as (k0 & rest & ->).
  unfold index. cbn [lookup list_lookup default mbind result_bind]. unfold id.
  destruct rest as [|v1 rest]; cbn [lookup list_lookup]; [discriminate|].
  cbn [mbind result_bind fmap option_fmap option_map option_bind].
  destruct rule as [n o t u]. cbn [Name Opt Table UseZero].
  destruct (String.eqb_spec (TrimSpace k0) "opt") as [->|_].
  { intros [= <-]. reflexivity. }
  destruct (String.eqb_spec (TrimSpace k0) "table") as [->|_].
  { intros [= <-]. reflexivity. }
  unfold is_use_zero. destruct (_ || _).
  - cbn [default]. destruct (ParseBool _); [|discriminate].
    intros [= <-]. reflexivity.
  - intros [= <-]. reflexivity.
Qed.

Lemma default_last_omap {A B} (f : A → option B) (d : B) (x : A) (l : list A) :
  default (default d (f x)) (last (omap f l)) = default d (last (omap f (x :: l))).
Proof.
  cbn [omap list_omap]. destruct (f x) as [y|]; [|done].
  rewrite last_cons. by destruct (last _).
Qed.

(** X10: in a tag the last entry of a key wins.  When the entries of a tag
    are read without panic, the rule has the operator of the last [opt]
    entry, the table of the last [table] entry and the flag of the last
    [use_zero] or [useZero] entry, what it had before for a key that
    does not occur, and its name is untouched; entries of other keys
    change nothing. *)
Theorem tag_last_entry_wins (filterTags : list string) (rule rule' : Rule) :
  for_range Filter_tag filterTags rule = Ok rule' →
  rule' = mkRule (Name rule)
            (default (Opt rule) (last (omap entry_opt filterTags)))
            (default (Table rule) (last (omap entry_table filterTags)))
            (default (UseZero rule) (last (omap entry_use_zero filterTags))).
Proof.
  revert rule. induction filterTags as [|entry filterTags IH]; intros rule.
  - intros [= <-]. by destruct rule.
  - cbn [for_range]. destruct (Filter_tag rule entry) as [rule1|] eqn:E; [|discriminate].
    cbn [mbind result_bind]. intros ->%IH. apply Filter_tag_Ok in E as ->.
    cbn [Name Opt Table UseZero]. by rewrite !default_last_omap.
Qed.

(** ** When [Filter] panics *)

Lemma Filter_tag_Ok_iff (rule : Rule) (entry : string) :
  (∃ rule', Filter_tag rule entry = Ok rule') ↔ well_formed entry = true.
Proof.
  unfold Filter_tag, well_formed, entry_key, entry_value.
  destruct (Split_cons entry ":") as (k0 & rest & ->).
  unfold index. cbn [lookup list_lookup default mbind result_bind]. unfold id.
  destruct rest as [|v1 rest]; cbn [lookup list_lookup].
  { cbn. split; [by intros [? ?]|done]. }
  cbn [mbind result_bind fmap option_fmap option_map].
  destruct (String.eqb_spec (TrimSpace k0) "opt") as [->|_];
    [split; [done|by eauto]|].
  destruct (String.eqb_spec (TrimSpace k0) "table") as [->|_];
    [split; [done|by eauto]|].
  unfold is_use_zero. destruct (_ || _); cbn [negb orb]; [|split; [done|by eauto]].
  destruct (ParseBool _); [split; [done|by eauto]|]. split; [by intros [? ?]|done].
Qed.

Lemma Filter_tag_Panic (rule : Rule) (entry : string) (p : panic) :
  Filter_tag rule entry = Panic p → extraction_panic p.
Proof.
  unfold Filter_tag.
  destruct (Split_cons entry ":") as (k0 & rest & ->).
  unfold index. cbn [lookup list_lookup mbind result_bind].
  destruct rest as [|v1 rest]; cbn [lookup list_lookup length mbind result_bind].
  { intros [= <-]. constructor. }
  repeat match goal with
  | |- context [if ?b then _ else _] => destruct b; try discriminate
  end.
  destruct (ParseBool _) eqn:E; [discriminate|]. intros [= <-]. by constructor.
Qed.

Lemma for_range_Ok_iff {A S} (body : S → A → result S) (P : A → bool) (l : list A) :
  (∀ s x, (∃ s', body s x = Ok s') ↔ P x = true) →
  ∀ s, (∃ s', for_range body l s = Ok s') ↔ forallb P l = true.
Proof.
  intros Hbody. induction l as [|x l IH]; intros s; cbn [for_range forallb].
  - split; [done|by eauto].
  - rewrite andb_true_iff, <- (Hbody s x). split.
    + intros [s' H]. destruct (body s x) as [s1|] eqn:E; [|discriminate].
      split; [by eauto|]. apply (IH s1). by eauto.
    + intros [[s1 ->] Hl]. by apply (IH s1).
Qed.

Lemma Filter_field_Ok_iff st (f : StructField GoValue) :
  (∃ st', Filter_field st f = Ok st') ↔ field_ok f = true.
Proof.
  destruct st as [destMap rules]. unfold Filter_field, field_ok, annotated, entries.
  destruct (_ || _); cbn [negb orb]; [split; by eauto|].
  rewrite <- (for_range_Ok_iff Filter_tag well_formed _ Filter_tag_Ok_iff
                (mkRule (TrimSpace (removeOmitempty (Tag_json f))) "" "" false)).
  split.
  - intros [st' H]. destruct (for_range _ _ _) as [rule|]; [by eauto|discriminate].
  - intros [rule ->]. by eauto.
Qed.

(** X11: the extraction of [Filter] goes through without panic exactly
    when every entry of every annotated field has a colon and, under the
    key [use_zero] or [useZero], a value that [strconv.ParseBool] accepts:
    a key that is unknown, a value that is empty and an operator that
    does not exist are all read without error. *)
Theorem extraction_succeeds_iff (fields : list (StructField GoValue)) :
  (∃ destMap rules, for_range Filter_field fields (∅, []) = Ok (destMap, rules))
  ↔ forallb field_ok fields = true.
Proof.
  rewrite <- (for_range_Ok_iff Filter_field field_ok fields Filter_field_Ok_iff (∅, [])).
  split.
  - intros (destMap & rules & H). by eauto.
  - intros [[destMap rules] H]. by eauto.
Qed.

Lemma parseRule_Panic (rule : Rule) (v : GoValue)
    (c : list string) (p : list GoValue) (e : panic) :
  parseRule rule (ValueOf v) c p = Panic e →
  render_panic e ∧ e ≠ unexported_field.
Proof.
  rewrite parseRule_qualified. generalize (column rule).
  destruct rule as [n o t u]. intros col.
  unfold parseRule, set_Name, set_Opt.
  cbn [Table Name Opt UseZero negb String.eqb Interface mbind result_bind].
  destruct (String.eqb o ""); cbn [Table Name Opt UseZero]; [discriminate|].
  repeat match goal with
  | |- context [if ?b then _ else _] => destruct b; try discriminate
  end.
  - destruct v; cbn [assert_string mbind result_bind]; try discriminate;
      intros [= <-]; (split; [by constructor | discriminate]).
  - destruct v as [| | |[[|d0 [|d1 [|d2 dates]]]|]| | |];
      cbn [assert_strings mbind result_bind]; try discriminate;
      intros [= <-]; (split; [by constructor | discriminate]).
Qed.

Lemma parseRule_Panic_field (rule : Rule) (f : StructField GoValue)
    (c : list string) (p : list GoValue) (e : panic) :
  parseRule rule (Field f) c p = Panic e →
  render_panic e ∧ (e = unexported_field → Exported f = false).
Proof.
  unfold Field. destruct (Exported f).
  - intros [Hr Hne]%parseRule_Panic. by split.
  - rewrite parseRule_read_only. intros [= <-]. split; [constructor|done].
Qed.

Lemma underlying_Field (f : StructField GoValue) :
  underlying (Field f) = Some (FieldValue f).
Proof. unfold Field. by destruct (Exported f). Qed.

Lemma Filter_destMap_fields (fields : list (StructField GoValue))
    (destMap : gmap string Value) (rules : list Rule) :
  for_range Filter_field fields (∅, []) = Ok (destMap, rules) →
  from_fields fields destMap.
Proof.
  assert (∀ st st', for_range Filter_field fields st = Ok st' →
            ∀ k rv, st'.1 !! k = Some rv →
              st.1 !! k = Some rv ∨ ∃ f, f ∈ fields ∧ rv = Field f) as H.
  { induction fields as [|f fields IH]; intros st st'.
    - intros [= <-] k rv Hk. by left.
    - cbn [for_range]. destruct (Filter_field st f) as [st1|] eqn:E; [|discriminate].
      cbn [mbind result_bind]. intros Hrest k rv Hk.
      destruct (IH _ _ Hrest k rv Hk) as [H1|(g & Hg & ->)].
      + apply Filter_field_Ok in E as [E _]. rewrite E in H1.
        destruct (annotated f); [|by left].
        destruct (decide (jsonName f = k)) as [<-|Hne].
        * rewrite lookup_insert_eq in H1. injection H1 as <-.
          right. exists f. split; [apply list_elem_of_here|done].
        * rewrite lookup_insert_ne in H1 by done. by left.
      + right. exists g. split; [by apply list_elem_of_further|done]. }
  intros Hext k rv Hk. destruct (H _ _ Hext k rv Hk) as [H0|H1]; [|done].
  cbn [fst] in H0. by rewrite lookup_empty in H0.
Qed.

Lemma Search_destMap_fields (fields : list (StructField GoValue)) :
  from_fields fields (foldl Search_field ∅ fields).
Proof.
  assert (∀ (m0 : gmap string Value) k rv,
            foldl Search_field m0 fields !! k = Some rv →
            m0 !! k = Some rv ∨ ∃ f, f ∈ fields ∧ rv = Field f) as H.
  { induction fields as [|f fields IH]; intros m0 k rv Hk.
    - by left.
    - cbn [foldl] in Hk. destruct (IH _ k rv Hk) as [H1|(g & Hg & ->)].
      + unfold Search_field in H1. fold (jsonName f) in H1.
        destruct (negb _); [|by left].
        destruct (decide (jsonName f = k)) as [<-|Hne].
        * rewrite lookup_insert_eq in H1. injection H1 as <-.
          right. exists f. split; [apply list_elem_of_here|done].
        * rewrite lookup_insert_ne in H1 by done. by left.
      + right. exists g. split; [by apply list_elem_of_further|done]. }
  intros k rv Hk. destruct (H _ k rv Hk) as [H0|H1]; [|done].
  by rewrite lookup_empty in H0.
Qed.

Lemma Filter_rule_Panic (fields : list (StructField GoValue))
    (destMap : gmap string Value) (rule : Rule) st (e : panic) :
  from_fields fields destMap →
  is_Some (destMap !! Name rule) →
  Filter_rule destMap st rule = Panic e →
  render_panic e
  ∧ (e = unexported_field → ∃ f, f ∈ fields ∧ Exported f = false).
Proof.
  intros Hfrom [rv Hrv] Hp. destruct (Hfrom _ _ Hrv) as (f & Hf & ->).
  rewrite (Filter_rule_on_value _ _ _ _ _ Hrv (underlying_Field f)) in Hp.
  destruct (_ && _); [discriminate|].
  apply parseRule_Panic_field in Hp as [Hr Hu]. split; [done|].
  intros He. exists f. by auto.
Qed.

Lemma Search_rule_Panic (fields : list (StructField GoValue))
    (destMap : gmap string Value) (rule : Rule) st (e : panic) :
  from_fields fields destMap →
  Search_rule destMap st rule = Panic e →
  render_panic e
  ∧ (e = unexported_field → ∃ f, f ∈ fields ∧ Exported f = false).
Proof.
  intros Hfrom Hp. destruct (destMap !! Name rule) as [rv|] eqn:Hrv.
  - destruct (Hfrom _ _ Hrv) as (f & Hf & ->).
    rewrite (Search_rule_on_value _ _ _ _ _ Hrv (underlying_Field f)) in Hp.
    destruct (_ && _); [discriminate|].
    apply parseRule_Panic_field in Hp as [Hr Hu]. split; [done|].
    intros He. exists f. by auto.
  - by rewrite (Search_rule_unmatched _ _ _ Hrv) in Hp.
Qed.

Section Panics.
Context {DB : Type} (Where : string → list GoValue → DB → DB).

(** X12: the panics of the three transforms are known.  [Filter] panics
    only on an entry without colon (index 1 of a slice of length 1), on a
    [use_zero] value that is no boolean, on a rule bound to an unexported
    field (the panic of [Interface]), on [like] bound to a value that is
    no string, on [date_range] bound to a value that is no [[]string], or
    on a [date_range] that has not two dates; [Search] only on the last
    four and [MultiSearch] only on the last three.  The panic of
    [Interface] occurs only for a destination with an unexported field.
    In particular the rules that [Filter] extracts are all bound, and no
    transform calls [IsZero] or [Interface] on the zero Value. *)
Theorem panics_are_known (p : panic) :
  (∀ dest (db : DB), Filter Where dest db = Panic p →
     (extraction_panic p ∨ render_panic p)
     ∧ (p = unexported_field →
        ∃ f, f ∈ Fields (struct_of dest) ∧ Exported f = false))
  ∧ (∀ rules dest (db : DB), Search Where rules dest db = Panic p →
     render_panic p
     ∧ (p = unexported_field →
        ∃ f, f ∈ Fields (struct_of dest) ∧ Exported f = false))
  ∧ (∀ rules dest (db : DB), MultiSearch Where rules dest db = Panic p →
     render_panic p ∧ p ≠ unexported_field).
Proof.
  split; [|split].
  - intros dest db. unfold Filter. destruct (negb _); [discriminate|].
    destruct (for_range Filter_field _ _) as [[destMap rules]|e] eqn:Hext;
      cbn [mbind result_bind].
    + destruct (_ =? _)%nat; [discriminate|].
      destruct (for_range (Filter_rule destMap) _ _) as [[c q]|e] eqn:Hloop;
        cbn [mbind result_bind]; [discriminate|].
      intros [= <-].
      apply for_range_Panic in Hloop as (rule & st & Hin & Hp).
      apply (Filter_rule_Panic _ _ _ _ _ (Filter_destMap_fields _ _ _ Hext)
               (Filter_rules_bound _ _ _ Hext rule Hin)) in Hp as [Hr Hu].
      by auto.
    + intros [= <-].
      apply for_range_Panic in Hext as (f & [destMap rules] & _ & Hp).
      unfold Filter_field in Hp. destruct (_ || _); [discriminate|].
      destruct (for_range Filter_tag _ _) as [rule|e'] eqn:Htags;
        cbn [mbind result_bind] in Hp; [discriminate|].
      injection Hp as <-.
      apply for_range_Panic in Htags as (entry & rule & _ & Hp).
      apply Filter_tag_Panic in Hp. split; [by left|].
      intros ->. inversion Hp.
  - intros rules dest db. unfold Search. destruct (negb _); [discriminate|].
    destruct (_ =? _)%nat; [discriminate|].
    destruct (for_range _ _ _) as [[c q]|e] eqn:Hloop;
      cbn [mbind result_bind]; [discriminate|].
    intros [= <-].
    apply for_range_Panic in Hloop as (rule & st & Hin & Hp).
    by apply (Search_rule_Panic _ _ _ _ _ (Search_destMap_fields _)) in Hp.
  - intros rules dest db. unfold MultiSearch. destruct (String.eqb _ _); [discriminate|].
    destruct (_ =? _)%nat; [discriminate|].
    destruct (for_range _ _ _) as [[c q]|e] eqn:Hloop;
      cbn [mbind result_bind]; [discriminate|].
    intros [= <-].
    apply for_range_Panic in Hloop as (rule & [c q] & Hin & Hp).
    unfold MultiSearch_rule in Hp. by apply parseRule_Panic in Hp.
Qed.

(** A rule on an unexported field: [Interface] panics as soon as the rule
    is rendered, in [Filter] and in [Search]; a rule that is skipped never
    reaches it. *)
Lemma unexported_field_panics (db : DB) :
  Filter Where (VStruct [mkStructField false "name" "opt:=" (VString "x")]) db
  = Panic unexported_field
  ∧ Search Where [mkRule "name" "=" "" false]
      (VStruct [mkStructField false "name" "" (VString "x")]) db
    = Panic unexported_field
  ∧ Filter Where (VStruct [mkStructField false "name" "opt:=" (VString "")]) db
    = Ok (Where "" [] db).
Proof. repeat split; vm_compute; reflexivity. Qed.
End Panics.

(** ** [MultiSearch] *)

Lemma parseRule_keyword (rule : Rule) (kw : string)
    (c : list string) (p : list GoValue) :
  Opt rule ≠ op.DateRange →
  parseRule rule (ValueOf (VString kw)) c p
  = if is_recognized rule
    then Ok (c ++ [fragment_of rule], p ++ [keyword_param kw rule])
    else Ok (c, p).
Proof.
  intros Hdr. unfold is_recognized.
  destruct (decide (Opt rule = "")) as [Ho|Hne].
  { rewrite parseRule_qualified. unfold fragment_of, keyword_param.
    rewrite Ho. reflexivity. }
  destruct (decide (Opt rule ∈ operators)) as [Hop|Hop].
  - rewrite parseRule_qualified. unfold fragment_of, keyword_param.
    generalize (column rule). destruct rule as [n o t u]. cbn [Opt UseZero] in *.
    intros col. unfold operators in Hop.
    repeat (apply elem_of_cons in Hop as [->|Hop]; [reflexivity|]).
    apply elem_of_cons in Hop as [->|Hop]; [done|]. by apply elem_of_nil in Hop.
  - rewrite (not_recognized _ Hne Hop).
    by apply parseRule_not_operator.
Qed.

Lemma MultiSearch_loop (kw : string) (rules : list Rule)
    (c : list string) (p : list GoValue) :
  Forall (λ rule, Opt rule ≠ op.DateRange) rules →
  for_range (MultiSearch_rule (ValueOf (VString kw))) rules (c, p)
  = Ok (c ++ (fragment_of <$> List.filter is_recognized rules),
        p ++ (keyword_param kw <$> List.filter is_recognized rules)).
Proof.
  intros Hall. revert c p. induction Hall as [|rule rules Hdr _ IH]; intros c p.
  - cbn. by rewrite !app_nil_r.
  - cbn [for_range List.filter].
    change (MultiSearch_rule (ValueOf (VString kw)) (c, p) rule)
      with (parseRule rule (ValueOf (VString kw)) c p).
    rewrite (parseRule_keyword _ _ _ _ Hdr).
    destruct (is_recognized rule); cbn [mbind result_bind]; rewrite IH; [|done].
    cbn [fmap list_fmap]. by rewrite <- !app_assoc.
Qed.

Section MultiSearchProperties.
Context {DB : Type} (Where : string → list GoValue → DB → DB).

(** X13: [MultiSearch] has no skip policy.  With a keyword that is not
    blank and rules none of which is a date range, it renders every rule
    with a recognized operator, in the order of the rules, on the
    trimmed keyword (between [%] for [like]), leaves out the rules with
    an unknown operator, and joins the fragments with [OR]. *)
Theorem MultiSearch_renders_all (rules : list Rule) (dest : string) (db : DB) :
  TrimSpace dest ≠ "" → rules ≠ [] →
  Forall (λ rule, Opt rule ≠ op.DateRange) rules →
  MultiSearch Where rules dest db
  = Ok (Where (Join (fragment_of <$> List.filter is_recognized rules) " OR ")
          (keyword_param (TrimSpace dest) <$> List.filter is_recognized rules) db).
Proof.
  intros Hkw Hrules Hall. unfold MultiSearch.
  rewrite (eqb_false_of_ne _ _ Hkw).
  assert ((length rules =? 0)%nat = false) as -> by (by destruct rules).
  by rewrite (MultiSearch_loop _ _ _ _ Hall).
Qed.

(** X14: the operator [date_range] needs a [[]string].  On a value of any
    other type, also a slice of two elements of another type,
    [parseRule] panics on the type assertion [value.([]string)]; so
    [MultiSearch], which binds every rule to the keyword, panics as soon
    as one of its rules is a date range and the keyword is not blank. *)
Theorem date_range_needs_strings (rule : Rule) :
  Opt rule = op.DateRange →
  (∀ v c p, (∀ o, v ≠ VStrings o) →
     parseRule rule (ValueOf v) c p = Panic (InterfaceConversion v "[]string"))
  ∧ (∀ rules dest (db : DB),
       TrimSpace dest ≠ "" → rule ∈ rules →
       panics (MultiSearch Where rules dest db)).
Proof.
  intros Ho. split.
  - intros v c p Hv. by apply parseRule_date_range_not_strings.
  - intros rules dest db Hkw Hin. unfold MultiSearch.
    rewrite (eqb_false_of_ne _ _ Hkw), (elem_of_length_eqb _ _ Hin).
    apply bind_panics. apply (for_range_panics _ _ rule Hin).
    intros [c p]. unfold MultiSearch_rule.
    rewrite (parseRule_date_range_not_strings rule) by done. by eexists.
Qed.
End MultiSearchProperties.

Lemma isPrefix_empty (s : string) : isPrefix "" s = true.
Proof. by destruct s. Qed.

Lemma spaceAtHead_blank (c : ascii) (s : string) :
  blank_byte c = true → spaceAtHead (String c s) = Some 1%nat.
Proof.
  intros Hc. destruct s as [|d s];
    destruct c as [[] [] [] [] [] [] [] []]; try discriminate Hc; reflexivity.
Qed.

Lemma trimLeftSpace_blank (fuel : nat) (s : string) :
  all_bytes blank_byte s = true → (String.length s ≤ fuel)%nat →
  trimLeftSpace fuel s = "".
Proof.
  revert fuel. induction s as [|c s IH]; intros fuel; [by destruct fuel|].
  cbn [all_bytes String.length]. intros [Hc Hs]%andb_true_iff Hlen.
  destruct fuel as [|fuel]; [lia|]. cbn [trimLeftSpace].
  rewrite (spaceAtHead_blank _ _ Hc). cbn [drop_bytes]. apply IH; [done|lia].
Qed.

Lemma TrimSpace_blank (s : string) :
  all_bytes blank_byte s = true → TrimSpace s = "".
Proof.
  intros Hs. unfold TrimSpace.
  rewrite (trimLeftSpace_blank (String.length s) s Hs (le_n _)). reflexivity.
Qed.

Section Blank.
Context {DB : Type} (Where : string → list GoValue → DB → DB).

(** X15: with a keyword that is empty or made of ASCII white space only,
    or with no rule, [MultiSearch] returns the query it was given: no
    rule is rendered, also none that would panic. *)
Theorem MultiSearch_blank (rules : list Rule) (dest : string) (db : DB) :
  all_bytes blank_byte dest = true ∨ rules = [] →
  MultiSearch Where rules dest db = Ok db.
Proof.
  intros [Hblank| ->]; unfold MultiSearch.
  - by rewrite (TrimSpace_blank _ Hblank).
  - by destruct (String.eqb _ _).
Qed.
End Blank.

(** ** [Search] and [Filter] compared *)

Section Compare.
Context {DB : Type} (Where : string → list GoValue → DB → DB).

(** X16: in [Search], a rule whose name matches no field, or whose value
    is the zero value while it has no [UseZero], can be left out of the
    rule list, as long as a rule is left: the transform is the same.
    (Alone in the list it is not the same as no rule: [Where] is called,
    with the empty condition.) *)
Theorem Search_dropped_rule (rules1 rules2 : list Rule) (rule : Rule)
    (dest : GoValue) (db : DB) :
  rules1 ++ rules2 ≠ [] →
  match foldl Search_field ∅ (Fields (struct_of dest)) !! Name rule ≫= underlying with
  | Some v => isZero v = true ∧ UseZero rule = false
  | None => True
  end →
  Search Where (rules1 ++ rule :: rules2) dest db
  = Search Where (rules1 ++ rules2) dest db.
Proof.
  intros Hne Hdrop. unfold Search. destruct (negb _); [done|].
  assert ((length (rules1 ++ rule :: rules2) =? 0)%nat = false) as ->
    by (by destruct rules1).
  assert ((length (rules1 ++ rules2) =? 0)%nat = false) as ->
    by (by destruct (rules1 ++ rules2)).
  rewrite !for_range_app. cbn [for_range].
  destruct (for_range _ rules1 _) as [st|]; [|done]. cbn [mbind result_bind].
  destruct (foldl Search_field ∅ (Fields (struct_of dest)) !! Name rule) as [rv|] eqn:Hrv.
  - destruct (Search_destMap_fields _ _ _ Hrv) as (f & _ & ->).
    cbn [mbind option_bind] in Hdrop. rewrite underlying_Field in Hdrop.
    destruct Hdrop as [Hz Hu].
    by rewrite (Search_rule_on_value _ _ _ _ _ Hrv (underlying_Field f)), Hz, Hu.
  - by rewrite (Search_rule_unmatched _ _ _ Hrv).
Qed.

(** X17: [Filter] is [Search] on the rules it extracts, when the two bind
    the names of these rules to the same values and no rule without
    [UseZero] is bound to an empty slice that is not nil. *)
Theorem Filter_as_Search (dest : GoValue) (db : DB)
    (destMap : gmap string Value) (rules : list Rule) :
  for_range Filter_field (Fields (struct_of dest)) (∅, []) = Ok (destMap, rules) →
  (∀ rule, rule ∈ rules →
     foldl Search_field ∅ (Fields (struct_of dest)) !! Name rule
     = destMap !! Name rule) →
  (∀ rule v, rule ∈ rules → destMap !! Name rule ≫= underlying = Some v →
     UseZero rule = true ∨ isZero v = true ∨ empty_slice v = false) →
  Filter Where dest db = Search Where rules dest db.
Proof.
  intros Hext Hsame Hslices. unfold Filter, Search.
  destruct (negb _); [done|]. rewrite Hext. cbn [mbind result_bind].
  destruct (_ =? _)%nat; [done|].
  rewrite (for_range_ext (Filter_rule destMap)
             (Search_rule (foldl Search_field ∅ (Fields (struct_of dest)))) rules); [done|].
  intros rule Hin st.
  destruct (Filter_rules_bound _ _ _ Hext rule Hin) as [rv Hrv].
  destruct (Filter_destMap_fields _ _ _ Hext _ _ Hrv) as (f & _ & ->).
  rewrite (Filter_rule_on_value _ _ _ _ _ Hrv (underlying_Field f)).
  rewrite (Search_rule_on_value _ _ (Field f) (FieldValue f))
    by (by rewrite ?Hsame, ?underlying_Field).
  destruct (Hslices rule (FieldValue f) Hin) as [-> | [-> | ->]];
    first [by rewrite Hrv; apply underlying_Field
          | by rewrite ?andb_false_r, ?orb_false_r].
Qed.

Lemma foldl_Search_field_retag g (fields : list (StructField GoValue))
    (m : gmap string Value) :
  foldl Search_field m (retag g <$> fields) = foldl Search_field m fields.
Proof.
  revert m. induction fields as [|f fields IH]; intros m; [done|].
  cbn [fmap list_fmap foldl]. by rewrite IH.
Qed.

(** X18: [Search] does not read the [filter] tags: on a struct whose
    fields carry other annotations, or none, it gives the same
    transform. *)
Theorem Search_ignores_annotations (g : StructField GoValue → string)
    (rules : list Rule) (fields : list (StructField GoValue)) (db : DB) :
  Search Where rules (VStruct (retag g <$> fields)) db
  = Search Where rules (VStruct fields) db
  ∧ Search Where rules (VPtr (Some (VStruct (retag g <$> fields)))) db
    = Search Where rules (VStruct fields) db.
Proof.
  split; unfold Search; cbn [struct_of Kind Kind_of GoKind_eqb Elem negb Fields];
    by rewrite foldl_Search_field_retag.
Qed.

Lemma Filter_field_unannotated st (f : StructField GoValue) :
  annotated f = false → Filter_field st f = Ok st.
Proof.
  destruct st as [destMap rules]. unfold annotated, Filter_field.
  intros ->%negb_false_iff. done.
Qed.

Lemma extraction_filter_annotated (fields : list (StructField GoValue)) st :
  for_range Filter_field (List.filter annotated fields) st
  = for_range Filter_field fields st.
Proof.
  revert st. induction fields as [|f fields IH]; intros st; [done|].
  cbn [List.filter for_range]. destruct (annotated f) eqn:Ha.
  - cbn [for_range]. destruct (Filter_field st f); [apply IH|done].
  - rewrite (Filter_field_unannotated _ _ Ha). cbn [mbind result_bind]. apply IH.
Qed.

(** X19: [Filter] reads the annotated fields only: the fields without
    [filter] tag, or with the tag [-], can be taken out of the struct
    without a change of the transform, whatever their names and values;
    and on a struct without annotated field the transform returns the
    query it was given. *)
Theorem Filter_ignores_unannotated (fields : list (StructField GoValue)) (db : DB) :
  Filter Where (VStruct fields) db
  = Filter Where (VStruct (List.filter annotated fields)) db
  ∧ (forallb (λ f, negb (annotated f)) fields = true →
     Filter Where (VStruct fields) db = Ok db).
Proof.
  assert (Filter Where (VStruct fields) db
          = Filter Where (VStruct (List.filter annotated fields)) db) as Heq.
  { unfold Filter. cbn [struct_of Kind Kind_of GoKind_eqb negb Fields].
    by rewrite extraction_filter_annotated. }
  split; [done|]. intros Hnone. rewrite Heq.
  assert (List.filter annotated fields = []) as ->; [|reflexivity].
  clear Heq. induction fields as [|f fields IH]; [done|].
  cbn [forallb] in Hnone. apply andb_true_iff in Hnone as [Hf Hnone].
  cbn [List.filter]. apply negb_true_iff in Hf. rewrite Hf. by apply IH.
Qed.

(** X20: the transforms work on a struct or on a pointer to a struct, and
    on nothing else: on a pointer to a struct [Filter] and [Search] are
    what they are on the struct, and on every other value (a scalar, a
    slice, a nil pointer, a pointer to a pointer) they return the query
    they were given, whatever the rules. *)
Theorem dest_struct_or_pointer (dest : GoValue) (rules : list Rule) (db : DB) :
  (∀ fields, dest = VPtr (Some (VStruct fields)) →
     Filter Where dest db = Filter Where (VStruct fields) db
     ∧ Search Where rules dest db = Search Where rules (VStruct fields) db)
  ∧ ((∀ fields, dest ≠ VStruct fields) →
     (∀ fields, dest ≠ VPtr (Some (VStruct fields))) →
     Filter Where dest db = Ok db ∧ Search Where rules dest db = Ok db).
Proof.
  split.
  - intros fields ->. split; reflexivity.
  - intros Hs Hp. destruct dest as [| | | | |[target|]|fields]; try (split; reflexivity).
    + destruct target as [| | | | | |fields]; try (split; reflexivity).
      by destruct (Hp fields).
    + by destruct (Hs fields).
Qed.
End Compare.

(** ** The conditions of [Search] and [Filter] *)

Lemma parseRule_untyped (rule : Rule) (v : GoValue)
    (c : list string) (p : list GoValue) :
  ¬ typed_operator rule →
  parseRule rule (ValueOf v) c p
  = if is_recognized rule then Ok (c ++ [fragment_of rule], p ++ [v])
    else Ok (c, p).
Proof.
  intros Hty. unfold is_recognized, typed_operator in *.
  destruct (decide (Opt rule = "")) as [Ho|Hne].
  { rewrite parseRule_qualified. unfold fragment_of. rewrite Ho. reflexivity. }
  destruct (decide (Opt rule ∈ operators)) as [Hop|Hop].
  - rewrite parseRule_qualified. unfold fragment_of.
    generalize (column rule). destruct rule as [n o t u]. cbn [Opt UseZero] in *.
    intros col. unfold operators in Hop.
    repeat (apply elem_of_cons in Hop as [->|Hop];
            [first [reflexivity | by destruct Hty; auto]|]).
    by apply elem_of_nil in Hop.
  - rewrite (not_recognized _ Hne Hop). by apply parseRule_not_operator.
Qed.

Lemma rule_loop_untyped body (keeps : Rule → bool) (value : Rule → option GoValue)
    (rules : list Rule) :
  (∀ rule c p, rule ∈ rules →
     body (c, p) rule
     = if keeps rule
       then match value rule with
            | Some v => Ok (c ++ [fragment_of rule], p ++ [v])
            | None => Ok (c, p)
            end
       else Ok (c, p)) →
  (∀ rule, rule ∈ rules → keeps rule = true → is_Some (value rule)) →
  ∀ c p,
  for_range body rules (c, p)
  = Ok (c ++ (fragment_of <$> List.filter keeps rules),
        p ++ omap value (List.filter keeps rules)).
Proof.
  induction rules as [|rule rules IH]; intros Hbody Hval c p.
  - cbn. by rewrite !app_nil_r.
  - cbn [for_range List.filter]. rewrite Hbody by apply list_elem_of_here.
    assert (∀ c p, for_range body rules (c, p)
            = Ok (c ++ (fragment_of <$> List.filter keeps rules),
                  p ++ omap value (List.filter keeps rules))) as IH'.
    { apply IH.
      - intros r c' p' Hr. apply Hbody. by apply list_elem_of_further.
      - intros r Hr. apply Hval. by apply list_elem_of_further. }
    destruct (keeps rule) eqn:Hk; cbn [mbind result_bind]; [|apply IH'].
    destruct (Hval rule (list_elem_of_here _ _) Hk) as [v Hv]. rewrite Hv.
    cbn [mbind result_bind fmap list_fmap omap list_omap]. rewrite IH', Hv.
    by rewrite <- !app_assoc.
Qed.

Lemma Field_exported (fields : list (StructField GoValue)) (f : StructField GoValue) :
  forallb Exported fields = true → f ∈ fields →
  Field f = ValueOf (FieldValue f).
Proof.
  intros Hall Hin. unfold Field.
  by rewrite (proj1 (forallb_forall _ _) Hall f (proj1 (list_elem_of_In _ _) Hin)).
Qed.

Section Conditions.
Context {DB : Type} (Where : string → list GoValue → DB → DB).

(** X21: the condition of [Search].  On a struct whose fields are all
    exported, with at least one rule and no rule of operator [like] or
    [date_range], [Search] never panics: it calls [Where] once, with the
    fragments of the rules that are matched, pass the zero-value check
    and have a recognized operator, in the order of the rule list and
    joined with [AND], and with the values bound to these rules as
    params. *)
Theorem Search_condition (rules : list Rule) (dest : GoValue) (db : DB) :
  Kind (struct_of dest) = Struct → rules ≠ [] →
  forallb Exported (Fields (struct_of dest)) = true →
  Forall (λ rule, ¬ typed_operator rule) rules →
  let destMap := foldl Search_field ∅ (Fields (struct_of dest)) in
  let kept := List.filter (Search_keeps destMap) rules in
  Search Where rules dest db
  = Ok (Where (Join (fragment_of <$> kept) " AND ")
          (omap (λ rule, destMap !! Name rule ≫= underlying) kept) db).
Proof.
  intros Hk Hne Hexp Hall destMap kept. unfold Search. rewrite Hk.
  cbn [GoKind_eqb negb].
  assert ((length rules =? 0)%nat = false) as -> by (by destruct rules).
  fold destMap.
  rewrite (rule_loop_untyped (Search_rule destMap) (Search_keeps destMap)
             (λ rule, destMap !! Name rule ≫= underlying)); [done| |].
  - intros rule c p Hin. unfold Search_keeps.
    destruct (destMap !! Name rule) as [rv|] eqn:Hrv.
    + destruct (Search_destMap_fields _ _ _ Hrv) as (f & Hf & ->).
      cbn [mbind option_bind]. rewrite underlying_Field.
      rewrite (Search_rule_on_value _ _ _ _ _ Hrv (underlying_Field f)).
      cbn [fst snd]. rewrite (Field_exported _ _ Hexp Hf).
      rewrite parseRule_untyped
        by (by apply (proj1 (Forall_forall _ _) Hall)).
      destruct (_ && negb _); cbn [negb andb]; [done|]. by destruct (is_recognized rule).
    + by rewrite (Search_rule_unmatched _ _ _ Hrv).
  - intros rule _. unfold Search_keeps.
    by destruct (destMap !! Name rule ≫= underlying).
Qed.

(** X22: the condition of [Filter].  On a struct whose fields are all
    exported, when the extraction gives at least one rule and no rule of
    operator [like] or [date_range], [Filter] does not panic: it calls
    [Where] once, with the fragments of the rules that pass the check of
    zero values and empty slices and have a recognized operator, in the
    order of the fields and joined with [AND], and with the values of
    their fields as params. *)
Theorem Filter_condition (dest : GoValue) (db : DB)
    (destMap : gmap string Value) (rules : list Rule) :
  Kind (struct_of dest) = Struct →
  forallb Exported (Fields (struct_of dest)) = true →
  for_range Filter_field (Fields (struct_of dest)) (∅, []) = Ok (destMap, rules) →
  rules ≠ [] →
  Forall (λ rule, ¬ typed_operator rule) rules →
  let kept := List.filter (Filter_keeps destMap) rules in
  Filter Where dest db
  = Ok (Where (Join (fragment_of <$> kept) " AND ")
          (omap (λ rule, destMap !! Name rule ≫= underlying) kept) db).
Proof.
  intros Hk Hexp Hext Hne Hall kept. unfold Filter. rewrite Hk, Hext.
  cbn [GoKind_eqb negb mbind result_bind].
  assert ((length rules =? 0)%nat = false) as -> by (by destruct rules).
  rewrite (rule_loop_untyped (Filter_rule destMap) (Filter_keeps destMap)
             (λ rule, destMap !! Name rule ≫= underlying)); [done| |].
  - intros rule c p Hin. unfold Filter_keeps.
    destruct (Filter_rules_bound _ _ _ Hext rule Hin) as [rv Hrv].
    destruct (Filter_destMap_fields _ _ _ Hext _ _ Hrv) as (f & Hf & ->).
    rewrite (Filter_rule_on_value _ _ _ _ _ Hrv (underlying_Field f)).
    rewrite Hrv. cbn [mbind option_bind fst snd]. rewrite underlying_Field.
    rewrite (Field_exported _ _ Hexp Hf).
    rewrite parseRule_untyped
      by (by apply (proj1 (Forall_forall _ _) Hall)).
    destruct (_ && negb _); cbn [negb andb]; [done|]. by destruct (is_recognized rule).
  - intros rule _. unfold Filter_keeps.
    by destruct (destMap !! Name rule ≫= underlying).
Qed.
End Conditions.

(** ** Separators and colons in a tag *)

Lemma trimLeftBytes_padded (cut : ascii → bool) (pad s : string) :
  all_bytes cut pad = true →
  trimLeftBytes cut (pad +:+ s) = trimLeftBytes cut s.
Proof.
  induction pad as [|c pad IH]; [done|].
  cbn [all_bytes]. intros [Hc Hpad]%andb_true_iff.
  rewrite append_String. cbn [trimLeftBytes]. rewrite Hc. by apply IH.
Qed.

Lemma trimRightBytes_all (cut : ascii → bool) (pad : string) :
  all_bytes cut pad = true → trimRightBytes cut pad = "".
Proof.
  induction pad as [|c pad IH]; [done|].
  cbn [all_bytes]. intros [Hc Hpad]%andb_true_iff.
  cbn [trimRightBytes]. by rewrite (IH Hpad), Hc.
Qed.

Lemma trimRightBytes_padded (cut : ascii → bool) (s pad : string) :
  all_bytes cut pad = true →
  trimRightBytes cut (s +:+ pad) = trimRightBytes cut s.
Proof.
  intros Hpad. induction s as [|c s IH].
  - by apply trimRightBytes_all.
  - rewrite append_String. cbn [trimRightBytes]. by rewrite IH.
Qed.

Lemma Trim_padded (cutset pad1 s pad2 : string) :
  all_bytes (inCutset cutset) pad1 = true →
  all_bytes (inCutset cutset) pad2 = true →
  Trim (pad1 +:+ s +:+ pad2) cutset = Trim s cutset.
Proof.
  intros H1 H2. unfold Trim. rewrite (trimLeftBytes_padded _ _ _ H1).
  induction s as [|c s IH].
  - change ("" +:+ pad2) with pad2.
    assert (trimLeftBytes (inCutset cutset) pad2 = "") as ->; [|done].
    clear -H2. induction pad2 as [|c pad2 IH]; [done|].
    cbn [all_bytes] in H2. apply andb_true_iff in H2 as [Hc Hpad].
    cbn [trimLeftBytes]. rewrite Hc. by apply IH.
  - rewrite append_String. cbn [trimLeftBytes].
    destruct (inCutset cutset c); [apply IH|].
    rewrite <- append_String. by apply trimRightBytes_padded.
Qed.

Lemma Split_separator (k s : string) (sep : ascii) :
  contains_byte sep k = false →
  Split (k +:+ String sep s) sep = k :: Split s sep.
Proof.
  induction k as [|c k IH].
  - intros _. change ("" +:+ String sep s) with (String sep s).
    cbn [Split]. by rewrite Ascii.eqb_refl.
  - cbn [contains_byte]. intros [Hc Hk]%orb_false_iff.
    rewrite append_String. cbn [Split]. by rewrite Hc, (IH Hk).
Qed.

(** X23: blanks, semicolons and commas around a [filter] tag count for
    nothing: a field is read as the same field with the tag trimmed of
    them (so a semicolon at the end of a tag makes no empty entry, and a
    tag made of such bytes only is no annotation). *)
Theorem Filter_field_padded (pad1 tag pad2 json : string) (v : GoValue) st :
  all_bytes (inCutset " ;,") pad1 = true →
  all_bytes (inCutset " ;,") pad2 = true →
  Filter_field st (mkField json (pad1 +:+ tag +:+ pad2) v)
  = Filter_field st (mkField json tag v)
  ∧ annotated (mkField json (pad1 +:+ pad2) v) = false.
Proof.
  intros H1 H2. split.
  - destruct st as [destMap rules]. unfold Filter_field, Field, mkField.
    cbn [Tag_filter Tag_json FieldValue Exported].
    by rewrite (Trim_padded _ _ _ _ H1 H2).
  - unfold annotated, mkField. cbn [Tag_filter].
    pose proof (Trim_padded " ;," pad1 "" pad2 H1 H2) as H.
    change ("" +:+ pad2) with pad2 in H. by rewrite H.
Qed.

(** X24: of an entry [Filter] reads the key, before the first colon, and
    the value, between the first colon and the second: what comes behind
    a second colon is dropped without error, so [opt:a:b] sets the
    operator [a] and [use_zero:true:x] sets the flag. *)
Theorem Filter_tag_second_colon (rule : Rule) (k v rest : string) :
  contains_byte ":" k = false → contains_byte ":" v = false →
  Filter_tag rule (k +:+ ":" +:+ v +:+ ":" +:+ rest)
  = Filter_tag rule (k +:+ ":" +:+ v).
Proof.
  intros Hk Hv. unfold Filter_tag.
  change (":" +:+ v +:+ ":" +:+ rest) with (String ":" (v +:+ String ":" rest)).
  change (":" +:+ v) with (String ":" v).
  rewrite !(Split_separator k _ _ Hk), (Split_separator v _ _ Hv),
    (Split_no_separator _ _ Hv).
  reflexivity.
Qed.

(** ** The theorems on a concrete executor *)

Lemma gorm_Where_empty (db : Query) : gorm_Where "" [] db = db.
Proof. reflexivity. Qed.

Lemma all_rules_dropped_witness :
  Filter gorm_Where (MockUserFilter "" 0) [] = Ok []
  ∧ Search gorm_Where MockRules (MockUserFilter "" 0) [] = Ok [].
Proof.
  destruct (all_rules_dropped gorm_Where (MockUserFilter "" 0) [] gorm_Where_empty)
    as [HF HS]; [reflexivity|].
  split.
  - apply (HF (<["age" := ValueOf (VInt 0)]> (<["name" := ValueOf (VString "")]> ∅)) MockRules).
    + vm_compute. reflexivity.
    + discriminate.
    + repeat apply Forall_cons_2; [| |apply Forall_nil_2]; (split; [done|]).
      * exists (VString ""). split; [vm_compute|]; reflexivity.
      * exists (VInt 0). split; [vm_compute|]; reflexivity.
  - apply (HS MockRules).
    + discriminate.
    + repeat apply Forall_cons_2; [| |apply Forall_nil_2]; vm_compute; done.
Defined.

Lemma params_follow_placeholders_witness :
  placeholders (Join ["o.created_at between ? and ?"; "name like ?"] " AND ") = 3%nat
  ∧ fill (λ v, match v with VString s => "<" +:+ s +:+ ">" | _ => "_" end)
      (Join ["o.created_at between ? and ?"; "name like ?"] " AND ")
      [VString "2024-01-01 00:00:00"; VString "2024-01-31 23:59:59"; VString "%Jo%"]
    = ("o.created_at between <2024-01-01 00:00:00> and <2024-01-31 23:59:59> AND name like <%Jo%>",
       []).
Proof.
  destruct (params_follow_placeholders
              (Search_rule (<["name" := ValueOf (VString "Jo")]>
                              {["created_at" := ValueOf (VStrings (Some ["2024-01-01"; "2024-01-31"]))]}))
              (Search_pick (<["name" := ValueOf (VString "Jo")]>
                              {["created_at" := ValueOf (VStrings (Some ["2024-01-01"; "2024-01-31"]))]}))
              [mkRule "created_at" "date_range" "o" false; mkRule "id" "=" "" false;
               mkRule "name" "like" "" false]
              ["o.created_at between ? and ?"; "name like ?"]
              [VString "2024-01-01 00:00:00"; VString "2024-01-31 23:59:59"; VString "%Jo%"])
    as (_ & _ & _ & Hjoin).
  - constructor.
  - repeat constructor.
  - vm_compute. reflexivity.
  - destruct (Hjoin " AND " (or_introl eq_refl)) as [Hn Hfill].
    split; [exact Hn|]. rewrite Hfill. vm_compute. reflexivity.
Defined.

Lemma date_range_two_values_or_panic_witness :
  parseRule (mkRule "created_at" "date_range" "orders" false)
    (ValueOf (VStrings (Some ["2024-01-01"; "2024-01-31"]))) [] []
  = Ok (["orders.created_at between ? and ?"],
        [VString "2024-01-01 00:00:00"; VString "2024-01-31 23:59:59"])
  ∧ parseRule (mkRule "created_at" "date_range" "orders" false)
      (ValueOf (VStrings (Some ["2024-01-01"]))) [] []
    = Panic (PanicString "date_range rule requires two values")
  ∧ panics (Search gorm_Where [mkRule "created_at" "date_range" "orders" false]
              (VStruct [mkField "created_at" ""
                          (VStrings (Some ["2024-01-01"; "2024-01-15"; "2024-01-31"]))]) []).
Proof.
  destruct (date_range_two_values_or_panic gorm_Where
              (mkRule "created_at" "date_range" "orders" false) [] [] eq_refl)
    as (Htwo & Hother & HSearch & _).
  split; [apply Htwo|]. split; [apply Hother; cbn; lia|].
  apply (HSearch _ _ _ ["2024-01-01"; "2024-01-15"; "2024-01-31"]).
  - reflexivity.
  - apply list_elem_of_here.
  - vm_compute. reflexivity.
  - cbn. lia.
Defined.

Lemma skip_policies_witness :
  Filter_rule {["ids" := ValueOf (VInts (Some []))]} ([], []) (mkRule "ids" "in" "" false)
  = Ok ([], [])
  ∧ Search_rule {["ids" := ValueOf (VInts (Some []))]} ([], []) (mkRule "ids" "in" "" false)
    = Ok (["ids in (?)"], [VInts (Some [])]).
Proof.
  destruct (skip_policies gorm_Where {["ids" := ValueOf (VInts (Some []))]}
              (mkRule "ids" "in" "" false) (ValueOf (VInts (Some [])))
              (VInts (Some [])) ([], []))
    as (Hskip & _); [vm_compute; reflexivity|reflexivity|].
  apply Hskip. reflexivity.
Defined.

Lemma Filter_malformed_use_zero_witness :
  panics (Filter gorm_Where
            (VStruct [mkField "name" "opt:rlike" (VString "John");
                      mkField "age" "opt:=;use_zero:yes" (VInt 20)]) []).
Proof.
  apply (Filter_malformed_use_zero gorm_Where _ []
           (mkField "age" "opt:=;use_zero:yes" (VInt 20)) "use_zero:yes" "yes").
  - reflexivity.
  - apply list_elem_of_further, list_elem_of_here.
  - vm_compute. reflexivity.
  - vm_compute. apply list_elem_of_further, list_elem_of_here.
  - vm_compute. reflexivity.
  - vm_compute. reflexivity.
  - reflexivity.
Defined.

Lemma Filter_entry_without_colon_witness :
  panics (Filter gorm_Where
            (VPtr (Some (VStruct [mkField "name" "opt:rlike;;table:users" (VString "John")]))) []).
Proof.
  apply (Filter_entry_without_colon gorm_Where _ []
           (mkField "name" "opt:rlike;;table:users" (VString "John")) "").
  - reflexivity.
  - apply list_elem_of_here.
  - vm_compute. reflexivity.
  - vm_compute. apply list_elem_of_further, list_elem_of_here.
  - reflexivity.
Defined.

Lemma removeOmitempty_modifier_witness :
  removeOmitempty ("name" +:+ ",omitempty" +:+ ",string") = "name".
Proof.
  apply (removeOmitempty_modifier "name" ",string"). reflexivity.
Defined.

Lemma removeOmitempty_precedence_witness :
  removeOmitempty ("name" +:+ ",optional,omitempty" +:+ "") = "name" +:+ ",optional".
Proof. apply (removeOmitempty_precedence "name" ""). reflexivity. Defined.

Lemma parseRule_raw_value_witness :
  parseRule (mkRule "age" ">=" "users" false) (ValueOf (VInt 18)) [] []
  = Ok (["users.age >= ?"], [VInt 18]).
Proof.
  apply (parseRule_raw_value (mkRule "age" ">=" "users" false)). compute_done.
Defined.

Lemma parseRule_like_witness :
  parseRule (mkRule "name" "like" "" false) (ValueOf (VString "Jo")) [] []
  = Ok (["name like ?"], [VString "%Jo%"])
  ∧ parseRule (mkRule "name" "like" "" false) (ValueOf (VInt 7)) [] []
    = Panic (InterfaceConversion (VInt 7) "string").
Proof.
  destruct (parseRule_like (mkRule "name" "like" "" false) [] [] eq_refl) as [Hs Hv].
  split; [apply Hs|]. apply Hv. discriminate.
Defined.

Lemma parseRule_appends_witness :
  ∃ frags args, ["a = ?"; "b in (?)"] = ["a = ?"] ++ frags
    ∧ [VInt 1; VInts (Some [2; 3])] = [VInt 1] ++ args
    ∧ ((frags = [] ∧ args = [])
       ∨ (length frags = 1 ∧ 1 ≤ length args ≤ 2))%nat.
Proof.
  apply (parseRule_appends (mkRule "b" "in" "" false) (ValueOf (VInts (Some [2; 3])))).
  reflexivity.
Defined.

Lemma extraction_names_witness :
  Name <$> MockRules = ["name"; "age"].
Proof.
  apply (extraction_names
           [mkField "name,omitempty" "opt:rlike" (VString "John");
            mkField "id" "-" (VInt 1);
            mkField "age" "opt:=" (VInt 20)]
           (<["age" := ValueOf (VInt 20)]> (<["name" := ValueOf (VString "John")]> ∅))).
  vm_compute. reflexivity.
Defined.

Lemma extraction_binds_last_witness :
  (<["id" := ValueOf (VInt 2)]> (<["id" := ValueOf (VInt 1)]> (∅ : gmap string Value))) !! "id"
  = Some (ValueOf (VInt 2)).
Proof.
  apply (extraction_binds_last
           [mkField "id" "opt:>" (VInt 1); mkField "id" "opt:<" (VInt 2)] _
           [mkRule "id" ">" "" false; mkRule "id" "<" "" false] "id").
  vm_compute. reflexivity.
Defined.

Lemma tag_last_entry_wins_witness :
  mkRule "name" "like" "" true
  = mkRule "name"
      (default "" (last (omap entry_opt ["opt:="; "use_zero:1"; "x:y"; "opt:like"])))
      (default "" (last (omap entry_table ["opt:="; "use_zero:1"; "x:y"; "opt:like"])))
      (default false (last (omap entry_use_zero ["opt:="; "use_zero:1"; "x:y"; "opt:like"]))).
Proof.
  apply (tag_last_entry_wins ["opt:="; "use_zero:1"; "x:y"; "opt:like"]
           (mkRule "name" "" "" false) (mkRule "name" "like" "" true)).
  vm_compute. reflexivity.
Defined.

Lemma panics_are_known_witness :
  render_panic (InterfaceConversion (VString "keyword") "[]string").
Proof.
  destruct (panics_are_known gorm_Where
              (InterfaceConversion (VString "keyword") "[]string"))
    as (_ & _ & HM).
  apply (HM [mkRule "created_at" "date_range" "" false] "keyword" []).
  vm_compute. reflexivity.
Defined.

Lemma MultiSearch_renders_all_witness :
  MultiSearch gorm_Where
    [mkRule "name" "like" "u" false; mkRule "nick" "~" "" false; mkRule "id" "" "" false]
    "  ann " []
  = Ok [("u.name like ? OR id = ?", [VString "%ann%"; VString "ann"])].
Proof.
  apply (MultiSearch_renders_all gorm_Where
           [mkRule "name" "like" "u" false; mkRule "nick" "~" "" false;
            mkRule "id" "" "" false] "  ann " []).
  - vm_compute. discriminate.
  - discriminate.
  - repeat constructor; discriminate.
Defined.

Lemma date_range_needs_strings_witness :
  parseRule (mkRule "day" "date_range" "" false) (ValueOf (VInts (Some [1; 2]))) [] []
  = Panic (InterfaceConversion (VInts (Some [1; 2])) "[]string")
  ∧ panics (MultiSearch gorm_Where
              [mkRule "name" "=" "" false; mkRule "day" "date_range" "" false] "2024" []).
Proof.
  destruct (date_range_needs_strings gorm_Where (mkRule "day" "date_range" "" false) eq_refl)
    as [Hv HM].
  split.
  - apply Hv. discriminate.
  - apply HM; [vm_compute; discriminate|].
    apply list_elem_of_further, list_elem_of_here.
Defined.

Lemma MultiSearch_blank_witness :
  MultiSearch gorm_Where [mkRule "day" "date_range" "" false]
    (String " " (String "009" (String "010" ""))) []
  = Ok [].
Proof.
  apply (MultiSearch_blank gorm_Where). left. reflexivity.
Defined.

Lemma Search_dropped_rule_witness :
  Search gorm_Where
    ([mkRule "name" "rlike" "" false] ++ mkRule "email" "=" "" false :: [mkRule "age" "=" "" false])
    MockUser []
  = Search gorm_Where ([mkRule "name" "rlike" "" false] ++ [mkRule "age" "=" "" false])
      MockUser [].
Proof.
  apply (Search_dropped_rule gorm_Where).
  - discriminate.
  - vm_compute. exact I.
Defined.

Lemma Filter_as_Search_witness :
  Filter gorm_Where MockUser [] = Search gorm_Where MockRules MockUser [].
Proof.
  apply (Filter_as_Search gorm_Where MockUser []
           (<["age" := ValueOf (VInt 20)]> (<["name" := ValueOf (VString "John")]> ∅)) MockRules).
  - vm_compute. reflexivity.
  - intros rule Hin. unfold MockRules in Hin.
    repeat (apply elem_of_cons in Hin as [->|Hin]; [vm_compute; reflexivity|]).
    by apply elem_of_nil in Hin.
  - intros rule v Hin. unfold MockRules in Hin.
    repeat (apply elem_of_cons in Hin as [->|Hin];
            [vm_compute; intros [= <-]; right; right; reflexivity|]).
    by apply elem_of_nil in Hin.
Defined.

Lemma Filter_ignores_unannotated_witness :
  Filter gorm_Where
    (VStruct [mkField "id" "" (VInt 7); mkField "name" " - " (VString "x")]) []
  = Ok [].
Proof.
  apply (Filter_ignores_unannotated gorm_Where). reflexivity.
Defined.

Lemma dest_struct_or_pointer_witness :
  Filter gorm_Where (VPtr (Some (VPtr (Some MockUser)))) [] = Ok []
  ∧ Search gorm_Where MockRules (VPtr (Some (VPtr (Some MockUser)))) [] = Ok [].
Proof.
  apply (dest_struct_or_pointer gorm_Where); discriminate.
Defined.

Lemma Search_condition_witness :
  Search gorm_Where
    [mkRule "age" ">=" "u" false; mkRule "email" "=" "" false;
     mkRule "name" "" "" true; mkRule "id" "!" "" false]
    (VStruct [mkField "id" "" (VInt 3); mkField "name,omitempty" "" (VString "");
              mkField "age" "" (VInt 18)]) []
  = Ok [("u.age >= ? AND name = ?", [VInt 18; VString ""])].
Proof.
  apply (Search_condition gorm_Where
           [mkRule "age" ">=" "u" false; mkRule "email" "=" "" false;
            mkRule "name" "" "" true; mkRule "id" "!" "" false]
           (VStruct [mkField "id" "" (VInt 3); mkField "name,omitempty" "" (VString "");
                     mkField "age" "" (VInt 18)]) []).
  - reflexivity.
  - discriminate.
  - reflexivity.
  - repeat constructor; intros [H|H]; discriminate H.
Defined.

Lemma Filter_condition_witness :
  Filter gorm_Where
    (VStruct [mkField "ids" "opt:in" (VInts (Some []));
              mkField "age" "opt:>;table:u" (VInt 18);
              mkField "name" "use_zero:true" (VString "")]) []
  = Ok [("u.age > ? AND name = ?", [VInt 18; VString ""])].
Proof.
  rewrite (Filter_condition gorm_Where
           (VStruct [mkField "ids" "opt:in" (VInts (Some []));
                     mkField "age" "opt:>;table:u" (VInt 18);
                     mkField "name" "use_zero:true" (VString "")]) []
           (<["name" := ValueOf (VString "")]> (<["age" := ValueOf (VInt 18)]> (<["ids" := ValueOf (VInts (Some []))]> ∅)))
           [mkRule "ids" "in" "" false; mkRule "age" ">" "u" false;
            mkRule "name" "" "" true]).
  - vm_compute. reflexivity.
  - reflexivity.
  - reflexivity.
  - vm_compute. reflexivity.
  - discriminate.
  - repeat constructor; intros [H|H]; discriminate H.
Defined.

Lemma Filter_field_padded_witness :
  Filter_field (∅, []) (mkField "age" ("; " +:+ "opt:>" +:+ ";,") (VInt 18))
  = Filter_field (∅, []) (mkField "age" "opt:>" (VInt 18)).
Proof.
  apply (Filter_field_padded "; " "opt:>" ";," "age" (VInt 18) (∅, [])); reflexivity.
Defined.

Lemma Filter_tag_second_colon_witness :
  Filter_tag (mkRule "flag" "" "" false) ("use_zero" +:+ ":" +:+ "true" +:+ ":" +:+ "x")
  = Filter_tag (mkRule "flag" "" "" false) ("use_zero" +:+ ":" +:+ "true").
Proof.
  apply (Filter_tag_second_colon (mkRule "flag" "" "" false) "use_zero" "true" "x");
    reflexivity.
Defined.
